(** * slackdump: the chunk identity scheme and the chunk directory

    A shallow embedding of [internal/chunk/directory.go] and of the chunk
    identity scheme exercised by [internal/chunk/chunk_test.go].

    Go strings are [string], byte slices are [list byte], integers are [Z].
    Functions that touch the operating system run in a state-and-error
    monad over an explicit file-system state. *)

From Stdlib Require Import ZArith String Ascii List Bool DecimalString.
From stdpp Require Import base option list gmap strings sorting.

Local Open Scope Z_scope.

(** ** Go values *)

Definition bytes := list Byte.byte.

(** [strconv.Itoa] on an integer of any width: decimal digits, a leading
    minus sign for negative numbers, ["0"] for zero. *)
Definition Itoa (n : Z) : string := NilZero.string_of_int (Z.to_int n).

(** [strings.HasSuffix]. *)
Definition HasSuffix (s suffix : string) : bool :=
  (String.length suffix <=? String.length s)%nat &&
  String.eqb
    (substring (String.length s - String.length suffix) (String.length suffix) s)
    suffix.

(** ** Records of the slack-go library

    [slack.Channel], [slack.User] and [slack.File] are carried around by
    this package but never inspected; [slack.Message] is read only through
    [Msg.Timestamp] and [Msg.ThreadTimestamp]. *)

Record SlackChannel := { chan_ID : string; chan_Name : string }.
Record SlackUser := { user_ID : string; user_Name : string }.
Record SlackFile := { file_ID : string; file_Name : string }.
Record Message := { Msg_Timestamp : string; Msg_ThreadTimestamp : string }.

(** The zero value of [slack.Message]. *)
Definition zeroMessage : Message :=
  {| Msg_Timestamp := ""; Msg_ThreadTimestamp := "" |}.

(** ** The chunk model *)

(** [ChunkType] is an integer type; every integer is a representable
    value, six of them are named. *)
Definition ChunkType := Z.

(** The fields of [Chunk], as [chunk_test.go] populates them. *)
Record Chunk := {
  Type_ : ChunkType;
  Timestamp : Z;
  IsThread : bool;
  Count : Z;
  Channel : option SlackChannel;
  ChannelID : string;
  Parent : option Message;
  Messages : list Message;
  Files : list SlackFile;
  Users : list SlackUser
}.

(** The declarations of the six named chunk types and of the two sentinel
    identities ([userChunkID], [channelChunkID]) are not part of the
    sources at hand; the test refers to them by name only.  They are
    taken as parameters. *)
Class ChunkConsts := {
  CMessages : ChunkType;
  CThreadMessages : ChunkType;
  CFiles : ChunkType;
  CChannelInfo : ChunkType;
  CUsers : ChunkType;
  CChannels : ChunkType;
  userChunkID : string;
  channelChunkID : string
}.

(** Go rejects a [switch] with duplicate constant cases, so the named
    chunk types are pairwise different. *)
Definition namedTypes `{ChunkConsts} : list ChunkType :=
  [CMessages; CThreadMessages; CFiles; CChannelInfo; CUsers; CChannels].

Definition consts_distinct `{ChunkConsts} : Prop := NoDup namedTypes.

(** The fields the identity reads. *)
Definition sameSubject (c c' : Chunk) : Prop :=
  Type_ c = Type_ c' /\ IsThread c = IsThread c' /\
  ChannelID c = ChannelID c' /\ Parent c = Parent c'.

Section Identity.
Context `{ChunkConsts}.

(** Modelled from the spec: [parent] is optional; where the table
    expects one and it is missing, it is treated as a zero-value
    anchor. *)
Definition anchor (c : Chunk) : Message := default zeroMessage (Parent c).

(** Modelled from the spec: [Chunk.ID], whose body is missing from the
    sources (only its test is present).  The table of section 3, one
    branch per row, the unknown fallback last. *)
Definition Chunk_ID (c : Chunk) : string :=
  if Type_ c =? CMessages then ChannelID c
  else if Type_ c =? CThreadMessages then
    "t" +:+ ChannelID c +:+ ":" +:+ Msg_ThreadTimestamp (anchor c)
  else if Type_ c =? CFiles then
    "f" +:+ ChannelID c +:+ ":" +:+ Msg_Timestamp (anchor c)
  else if Type_ c =? CChannelInfo then
    if IsThread c then "tci" +:+ ChannelID c else "ci" +:+ ChannelID c
  else if Type_ c =? CUsers then userChunkID
  else if Type_ c =? CChannels then channelChunkID
  else "<unknown:ChunkType(" +:+ Itoa (Type_ c) +:+ ")>".

End Identity.

(** The chunk [chunk_test.go] builds from its table of fields. *)
Definition testChunk (t : ChunkType) (isThread : bool) (channelID : string)
    (parent : option Message) : Chunk :=
  {| Type_ := t; Timestamp := 0; IsThread := isThread; Count := 0;
     Channel := None; ChannelID := channelID; Parent := parent;
     Messages := []; Files := []; Users := [] |}.

(** The chunk [c] with its [Parent] field replaced. *)
Definition withParent (p : option Message) (c : Chunk) : Chunk :=
  {| Type_ := Type_ c; Timestamp := Timestamp c; IsThread := IsThread c;
     Count := Count c; Channel := Channel c; ChannelID := ChannelID c;
     Parent := p; Messages := Messages c; Files := Files c;
     Users := Users c |}.

(** One admissible choice of the constants: the named types numbered in
    the order of the spec's enumeration. *)
Definition sampleConsts : ChunkConsts :=
  {| CMessages := 0; CThreadMessages := 1; CFiles := 2; CChannelInfo := 3;
     CUsers := 4; CChannels := 5;
     userChunkID := "lusr"; channelChunkID := "lch" |}.

(** ** Errors

    Go errors are values.  [errNoChannelInfo] is the package's sentinel
    variable; [errors.New] and [fmt.Errorf] without [%w] give [New];
    package [os] reports failures as [*fs.PathError]; [Wrapped] is an
    error that wraps another one. *)

Inductive errno := ENOENT | EISDIR | ENOSPC | EIO.

Inductive error :=
| errNoChannelInfo
| ErrNotExist
| ErrClosed
| New (msg : string)
| PathError (op path : string) (e : errno)
| Wrapped (msg : string) (inner : error).

#[global] Instance errno_eq_dec : EqDecision errno.
Proof. solve_decision. Defined.

#[global] Instance error_eq_dec : EqDecision error.
Proof. solve_decision. Defined.

(** [errors.Is]: the error itself or one it wraps equals the target; a
    path error carrying [ENOENT] matches [fs.ErrNotExist]. *)
Fixpoint errors_Is (err target : error) : bool :=
  bool_decide (err = target) ||
  match err with
  | Wrapped _ inner => errors_Is inner target
  | PathError _ _ ENOENT => bool_decide (target = ErrNotExist)
  | _ => false
  end.

Inductive result (A : Type) :=
| Ok (a : A)
| Err (e : error).
Arguments Ok {A} a.
Arguments Err {A} e.

Definition isErr {A} (r : result A) : bool :=
  match r with Ok _ => false | Err _ => true end.

(** ** The operating system

    The namespace maps a path, as the process passes it to a system call,
    to what lives there.  Permissions, symbolic links and missing parent
    folders are not modelled: a path that is absent can be created, and a
    regular file that exists can be opened. *)

Inductive inode :=
| Regular (data : bytes)
| Dir.

(** [fs.FileInfo], as far as this package reads it. *)
Record FileInfo := { IsDir : bool; Size : Z }.

(** The length of a folder is system-dependent; every caller below tests
    [IsDir] before [Size]. *)
Definition fileInfoOf (n : inode) : FileInfo :=
  match n with
  | Regular data => {| IsDir := false; Size := Z.of_nat (length data) |}
  | Dir => {| IsDir := true; Size := 0 |}
  end.

(** An open [*os.File]: its path and its offset. *)
Record ofile := { of_path : string; of_off : nat }.

(** A [*gzip.Writer]: the descriptor it writes to, the uncompressed bytes
    it was given, and whether it was closed. *)
Record gzwriter := {
  gz_sink : nat;
  gz_pending : bytes;
  gz_closed : bool;
  gz_err : option error
}.

Inductive event :=
| EvStat (path : string)
| EvOpen (path : string)
| EvOpenFile (path : string)
| EvWrite (path : string)
| EvClose (path : string)
| EvGzipClose (z : nat)
| EvWalkDir (root : string).

Record World := {
  files : gmap string inode;
  fds : gmap nat ofile;
  gzs : gmap nat gzwriter;
  nextid : nat;
  wfault : option errno;
  trace : list event
}.

Definition setFiles (f : gmap string inode) (w : World) : World :=
  {| files := f; fds := fds w; gzs := gzs w; nextid := nextid w;
     wfault := wfault w; trace := trace w |}.
Definition setFds (f : gmap nat ofile) (w : World) : World :=
  {| files := files w; fds := f; gzs := gzs w; nextid := nextid w;
     wfault := wfault w; trace := trace w |}.
Definition setGzs (g : gmap nat gzwriter) (w : World) : World :=
  {| files := files w; fds := fds w; gzs := g; nextid := nextid w;
     wfault := wfault w; trace := trace w |}.
Definition bumpId (w : World) : World :=
  {| files := files w; fds := fds w; gzs := gzs w; nextid := S (nextid w);
     wfault := wfault w; trace := trace w |}.
Definition log (e : event) (w : World) : World :=
  {| files := files w; fds := fds w; gzs := gzs w; nextid := nextid w;
     wfault := wfault w; trace := trace w ++ [e] |}.

(** ** Computations: state and error *)

Definition M (A : Type) : Type := World -> World * result A.

Definition ret {A} (a : A) : M A := fun w => (w, Ok a).
Definition fail {A} (e : error) : M A := fun w => (w, Err e).
Definition lift {A} (r : result A) : M A := fun w => (w, r).
Definition bind {A B} (m : M A) (k : A -> M B) : M B :=
  fun w => match m w with
           | (w', Ok a) => k a w'
           | (w', Err e) => (w', Err e)
           end.

Notation "'let*' x ':=' m 'in' k" := (bind m (fun x => k))
  (at level 10, x name, m at level 100, k at level 200).
Notation "m ';;' k" := (bind m (fun _ => k))
  (at level 100, k at level 200, right associativity).

(** [v, err := f()] where the code goes on whatever [err] is. *)
Definition try {A} (m : M A) : M (result A) :=
  fun w => let '(w', r) := m w in (w', Ok r).

(** [defer cleanup()]: the cleanup runs when the body is left, on every
    path, and its own error is dropped. *)
Definition defer {A} (cleanup : M unit) (body : M A) : M A :=
  fun w => let '(w1, r) := body w in (fst (cleanup w1), r).

Definition emit (e : event) : M unit := fun w => (log e w, Ok tt).

(** *** Package os *)

Definition os_Stat (name : string) : M FileInfo :=
  emit (EvStat name) ;;
  fun w => match files w !! name with
           | Some n => (w, Ok (fileInfoOf n))
           | None => (w, Err (PathError "stat" name ENOENT))
           end.

Definition newFd (name : string) : M nat :=
  fun w => (bumpId (setFds (<[nextid w := {| of_path := name; of_off := 0%nat |}]> (fds w)) w),
            Ok (nextid w)).

(** [os.Open]: read-only. *)
Definition os_Open (name : string) : M nat :=
  emit (EvOpen name) ;;
  fun w => match files w !! name with
           | Some _ => newFd name w
           | None => (w, Err (PathError "open" name ENOENT))
           end.

(** [os.OpenFile(name, os.O_CREATE|os.O_WRONLY, 0644)]: an absent file is
    created empty, an existing one is opened as it is (no [O_TRUNC], no
    [O_APPEND]); the offset starts at 0. *)
Definition os_OpenFile_create_wronly (name : string) : M nat :=
  emit (EvOpenFile name) ;;
  fun w => match files w !! name with
           | Some (Regular _) => newFd name w
           | Some Dir => (w, Err (PathError "open" name EISDIR))
           | None => newFd name (setFiles (<[name := Regular []]> (files w)) w)
           end.

(** The bytes of [old] with [new] written over them from offset [off]. *)
Definition overwrite (old : bytes) (off : nat) (new : bytes) : bytes :=
  take off old ++ new ++ drop (off + length new) old.

(** [Write] on an [*os.File]. *)
Definition os_File_Write (fd : nat) (p : bytes) : M nat :=
  fun w =>
    match fds w !! fd with
    | None => (w, Err ErrClosed)
    | Some f =>
        let w := log (EvWrite (of_path f)) w in
        match wfault w, files w !! of_path f with
        | Some e, _ => (w, Err (PathError "write" (of_path f) e))
        | None, Some (Regular old) =>
            (setFds (<[fd := {| of_path := of_path f;
                                of_off := (of_off f + length p)%nat |}]> (fds w))
               (setFiles (<[of_path f := Regular (overwrite old (of_off f) p)]>
                            (files w)) w),
             Ok (length p))
        | None, _ => (w, Err (PathError "write" (of_path f) EIO))
        end
    end.

(** Everything that can still be read from a descriptor. *)
Definition readAll (fd : nat) : M bytes :=
  fun w =>
    match fds w !! fd with
    | None => (w, Err ErrClosed)
    | Some f =>
        match files w !! of_path f with
        | Some (Regular data) => (w, Ok (drop (of_off f) data))
        | _ => (w, Err (PathError "read" (of_path f) EISDIR))
        end
    end.

(** [Close] on an [*os.File]. *)
Definition os_File_Close (fd : nat) : M unit :=
  fun w =>
    match fds w !! fd with
    | None => (w, Err ErrClosed)
    | Some f => (setFds (delete fd (fds w)) (log (EvClose (of_path f)) w), Ok tt)
    end.

(** *** Interfaces of package io

    An interface value is the record of its methods, each closed over the
    receiver. *)

Record io_Closer := { Close : M unit }.

Record io_WriteCloser := {
  Write : bytes -> M nat;
  WriteCloser_Close : M unit
}.

(** What [openChunks] hands out: the decompressed contents, held by
    [osext] in a temporary file outside the namespace modelled here, and
    the [Close] that disposes of it. *)
Record ReadSeekCloser := {
  rs_data : bytes;
  rs_Close : M unit
}.

(** What [filepath.WalkDir] passes to its callback: an entry with its
    path and whether it is a folder, or a path together with the error
    met there (the entry is nil when the root itself cannot be read). *)
Inductive visit :=
| VisitEntry (path : string) (isDir : bool)
| VisitErr (path : string) (d : option bool) (err : error).

(** ** The chunk file, read side *)

(** Modelled from the spec: [File], the decoded chunk stream of
    [file.go], which is missing from the sources: the chunks in file
    order and the index from identity to the positions of the chunks
    that share it. *)
Record File := {
  chunks : list Chunk;
  index : gmap string (list nat)
}.

(** ** What the package takes from elsewhere

    Functions of the Go standard library and of files of the repository
    that are not at hand.  [Clean] is [filepath.Clean].  [walkVisits fs
    root] is the sequence of calls [filepath.WalkDir] makes on [root] to a
    callback that keeps returning nil, in its lexical order.
    [gzip_compress] and [gunzip] are the two directions of
    [compress/gzip], the second as [osext.UnGZIP] applies it.
    [json_decode_channels] is [json.Decoder.Decode] into a slice of
    channels; [json_encode_chunk] and [json_decode_chunk] write one chunk
    as a JSON object and read one from the front of a stream ([None] at
    the end of input).  [AllChannelInfos] and [AllUsers] are the two
    methods of [File] this package calls. *)
Class Externals := {
  Clean : string -> string;
  walkVisits : gmap string inode -> string -> list visit;
  gzip_compress : bytes -> bytes;
  gunzip : bytes -> result bytes;
  json_decode_channels : bytes -> result (list SlackChannel);
  json_encode_chunk : Chunk -> bytes;
  json_decode_chunk : bytes -> result (option (Chunk * bytes));
  AllChannelInfos : File -> result (list SlackChannel);
  AllUsers : File -> result (list SlackUser)
}.

(** [strings.Join]. *)
Fixpoint strings_Join (elems : list string) (sep : string) : string :=
  match elems with
  | [] => ""
  | [e] => e
  | e :: rest => e +:+ sep +:+ strings_Join rest sep
  end.

(** [filepath.Join]: leading empty elements are dropped, the rest is
    joined with the separator and cleaned; nothing left gives [""]. *)
Fixpoint filepath_Join `{Externals} (elem : list string) : string :=
  match elem with
  | [] => ""
  | e :: rest =>
      if bool_decide (e = "") then filepath_Join rest
      else Clean (strings_Join elem "/")
  end.

Section Package.
Context `{ChunkConsts} `{Externals}.

(** *** Package compress/gzip, write side

    The writer is modelled as handing its whole output to the sink when
    it is closed; header, blocks and trailer are [gzip_compress] of what
    it was given. *)

Definition gzip_NewWriter (fd : nat) : M nat :=
  fun w =>
    (bumpId (setGzs (<[nextid w := {| gz_sink := fd; gz_pending := [];
                                      gz_closed := false; gz_err := None |}]>
                       (gzs w)) w),
     Ok (nextid w)).

Definition gzip_Writer_Write (z : nat) (p : bytes) : M nat :=
  fun w =>
    match gzs w !! z with
    | None => (w, Err ErrClosed)
    | Some g =>
        match gz_err g with
        | Some e => (w, Err e)
        | None =>
            if gz_closed g then (w, Err (New "flate: closed writer"))
            else (setGzs (<[z := {| gz_sink := gz_sink g;
                                    gz_pending := gz_pending g ++ p;
                                    gz_closed := false; gz_err := None |}]>
                            (gzs w)) w,
                  Ok (length p))
        end
    end.

Definition gzip_Writer_Close (z : nat) : M unit :=
  fun w =>
    match gzs w !! z with
    | None => (w, Err ErrClosed)
    | Some g =>
        match gz_err g with
        | Some e => (w, Err e)
        | None =>
            if gz_closed g then (w, Ok tt)
            else
              let closed e := {| gz_sink := gz_sink g; gz_pending := gz_pending g;
                                 gz_closed := true; gz_err := e |} in
              let w := log (EvGzipClose z) w in
              match os_File_Write (gz_sink g) (gzip_compress (gz_pending g)) w with
              | (w', Ok _) => (setGzs (<[z := closed None]> (gzs w')) w', Ok tt)
              | (w', Err e) => (setGzs (<[z := closed (Some e)]> (gzs w')) w', Err e)
              end
        end
    end.

Definition fileCloser (fd : nat) : io_Closer :=
  {| Close := os_File_Close fd |}.

Definition gzipWriteCloser (z : nat) : io_WriteCloser :=
  {| Write := gzip_Writer_Write z; WriteCloser_Close := gzip_Writer_Close z |}.

(** *** Package osext (missing from the sources)

    [UnGZIP] decompresses all of a reader into a temporary file and
    returns it; [RemoveOnClose] makes closing that file delete it. *)

Definition osext_UnGZIP (f : nat) : M bytes :=
  let* data := readAll f in lift (gunzip data).

Definition osext_RemoveOnClose (tf : bytes) : ReadSeekCloser :=
  {| rs_data := tf; rs_Close := ret tt |}.

(** ** The chunk file, read side (continued) *)

(** The positions of the chunks of each identity, in file order. *)
Fixpoint buildIndex (pos : nat) (cs : list Chunk) : gmap string (list nat) :=
  match cs with
  | [] => ∅
  | c :: rest =>
      let idx := buildIndex (S pos) rest in
      <[Chunk_ID c := pos :: default [] (idx !! Chunk_ID c)]> idx
  end.

(** Chunks are decoded one after another until the input ends; a decoder
    consumes at least one byte for each object, so the length of the
    input bounds the number of rounds. *)
Fixpoint decodeChunks (fuel : nat) (data : bytes) : result (list Chunk) :=
  match fuel with
  | O => Err (New "decoder made no progress")
  | S fuel =>
      match json_decode_chunk data with
      | Err e => Err e
      | Ok None => Ok []
      | Ok (Some (c, rest)) =>
          match decodeChunks fuel rest with
          | Ok cs => Ok (c :: cs)
          | Err e => Err e
          end
      end
  end.

(** Modelled from the spec: [FromReader], missing from the sources:
    decode the chunks sequentially and build the index. *)
Definition FromReader (data : bytes) : result File :=
  match decodeChunks (S (length data)) data with
  | Ok cs => Ok {| chunks := cs; index := buildIndex 0 cs |}
  | Err e => Err e
  end.

(** Modelled from the spec: the write path, which lives with the callers
    of [Directory.Create]: each chunk is encoded as one JSON object, one
    after another. *)
Fixpoint writeChunks (w : io_WriteCloser) (cs : list Chunk) : M unit :=
  match cs with
  | [] => ret tt
  | c :: rest => Write w (json_encode_chunk c) ;; writeChunks w rest
  end.

(** ** directory.go *)

Definition ext : string := ".json.gz".

Record Directory := { dir : string }.

Definition OpenDir (dir : string) : M Directory :=
  let* fi := os_Stat dir in
  if negb (IsDir fi) then fail (New ("not a directory: " +:+ dir))
  else ret {| dir := dir |}.

Definition Directory_filename (d : Directory) (name : string) : string :=
  filepath_Join [dir d; name +:+ ext].

Definition openChunks (filename : string) : M ReadSeekCloser :=
  let* fi := os_Stat filename in
  if IsDir fi then fail (New "chunk file is a directory")
  else if Size fi =? 0 then fail (New "chunk file is empty")
  else
    let* f := os_Open filename in
    defer (os_File_Close f)
      (let* tf := osext_UnGZIP f in
       ret (osext_RemoveOnClose tf)).

Definition readChanInfo (rs : bytes) : M (list SlackChannel) :=
  let* cf := lift (FromReader rs) in
  lift (AllChannelInfos cf).

Definition loadChanInfo (fullpath : string) : M (list SlackChannel) :=
  let* f := openChunks fullpath in
  defer (rs_Close f) (readChanInfo (rs_data f)).

Definition readChannelsJSON (r : bytes) : M (list SlackChannel) :=
  let* ch := lift (json_decode_channels r) in
  ret ch.

Definition loadChannelsJSON (fullpath : string) : M (list SlackChannel) :=
  let* cf := openChunks fullpath in
  defer (rs_Close cf) (readChannelsJSON (rs_data cf)).

(** [filepath.WalkDir]: the callback is called on every visit in turn;
    the first error it returns ends the walk and is the result.  The
    callback of [Channels] appends to a variable of the enclosing
    function, which is threaded through here. *)
Fixpoint walkLoop {A} (fn : visit -> A -> M A) (vs : list visit) (a : A) : M A :=
  match vs with
  | [] => ret a
  | v :: rest => let* a' := fn v a in walkLoop fn rest a'
  end.

Definition filepath_WalkDir {A} (root : string) (fn : visit -> A -> M A)
    (a : A) : M A :=
  emit (EvWalkDir root) ;;
  fun w => walkLoop fn (walkVisits (files w) root) a w.

(** The function literal passed to [WalkDir] in [Channels]. *)
Definition channelsWalkFn (v : visit) (ch : list SlackChannel)
    : M (list SlackChannel) :=
  match v with
  | VisitErr _ _ err => fail err
  | VisitEntry path isDir =>
      if negb (HasSuffix path ext) then ret ch
      else if isDir then ret ch
      else
        let* r := try (loadChanInfo path) in
        match r with
        | Err err =>
            if errors_Is err errNoChannelInfo then ret ch else fail err
        | Ok chs => ret (ch ++ chs)
        end
  end.

Definition Directory_Channels (d : Directory) : M (list SlackChannel) :=
  let* st := try (os_Stat (Directory_filename d "channels")) in
  if match st with Ok fi => negb (IsDir fi) | Err _ => false end
  then loadChannelsJSON (Directory_filename d "channels")
  else filepath_WalkDir (dir d) channelsWalkFn [].

Definition Directory_Users (d : Directory) : M (list SlackUser) :=
  let* f := openChunks (Directory_filename d "users") in
  defer (rs_Close f)
    (let* p := lift (FromReader (rs_data f)) in
     let* users := lift (AllUsers p) in
     ret users).

Definition Directory_OpenRAW (d : Directory) (filename : string)
    : M ReadSeekCloser :=
  openChunks (filepath_Join [filename]).

Definition Directory_Open (d : Directory) (name : string) : M File :=
  let* f := Directory_OpenRAW d (Directory_filename d name) in
  lift (FromReader (rs_data f)).

Record closewrapper := {
  WriteCloser : io_WriteCloser;
  underlying : io_Closer
}.

Definition Directory_Create (d : Directory) (name : string) : M closewrapper :=
  let filename := Directory_filename d name in
  let* st := try (os_Stat filename) in
  match st with
  | Ok fi =>
      if IsDir fi then fail (New ("not a file: " +:+ filename))
      else if 0 <? Size fi
      then fail (New ("file " +:+ filename +:+ " exists and not empty"))
      else ret tt
  | Err _ => ret tt
  end ;;
  let* f := os_OpenFile_create_wronly filename in
  let* gz := gzip_NewWriter f in
  ret {| WriteCloser := gzipWriteCloser gz; underlying := fileCloser f |}.

Definition closewrapper_Close (c : closewrapper) : M unit :=
  WriteCloser_Close (WriteCloser c) ;;
  Close (underlying c).

End Package.

(** ** Writing, seen from the namespace *)

(** The world right after a successful [Create]: a descriptor on the
    file at offset 0 and a fresh gzip writer on top of it. *)
Definition created (p : string) (fs : gmap string inode) (w : World) : World :=
  let w1 := log (EvOpenFile p) (log (EvStat p) w) in
  let w2 :=
    bumpId (setFds (<[nextid w := {| of_path := p; of_off := 0%nat |}]> (fds w))
              (setFiles fs w1)) in
  bumpId (setGzs (<[S (nextid w) := {| gz_sink := nextid w; gz_pending := [];
                                       gz_closed := false; gz_err := None |}]>
                    (gzs w)) w2).

(** ** Reading, seen from the namespace

    What the code below is compared against: the outcome of opening the
    chunk file at a path, as a function of the namespace alone. *)

Definition mapResult {A B} (f : A -> B) (r : result A) : result B :=
  match r with Ok a => Ok (f a) | Err e => Err e end.

Definition bindResult {A B} (r : result A) (k : A -> result B) : result B :=
  match r with Ok a => k a | Err e => Err e end.

Definition chunkFileContents `{Externals} (fs : gmap string inode) (p : string)
    : result bytes :=
  match fs !! p with
  | None => Err (PathError "stat" p ENOENT)
  | Some Dir => Err (New "chunk file is a directory")
  | Some (Regular []) => Err (New "chunk file is empty")
  | Some (Regular data) => gunzip data
  end.

(** The events [openChunks] can leave in the trace for a path. *)
Definition openEvents (p : string) : list event :=
  [EvStat p; EvOpen p; EvClose p].

Section Outcomes.
Context `{ChunkConsts} `{Externals}.

(** The chunk stream at a path. *)
Definition fileAt (fs : gmap string inode) (p : string) : result File :=
  bindResult (chunkFileContents fs p) FromReader.

(** The channel records of the channel-info chunks of the file at a path. *)
Definition chanInfoAt (fs : gmap string inode) (p : string)
    : result (list SlackChannel) :=
  bindResult (fileAt fs p) AllChannelInfos.

(** The users of the file at a path. *)
Definition usersAt (fs : gmap string inode) (p : string)
    : result (list SlackUser) :=
  bindResult (fileAt fs p) AllUsers.

(** The flat array of channels in the file at a path. *)
Definition channelsJSONAt (fs : gmap string inode) (p : string)
    : result (list SlackChannel) :=
  bindResult (chunkFileContents fs p) json_decode_channels.

End Outcomes.

(** A computation that only reads: it returns [r], leaves the namespace
    and the write fault alone, and adds to the trace only events among
    [allowed]. *)
Definition readsOnly {A} (m : M A) (w : World) (r : result A)
    (allowed : list event) : Prop :=
  exists w' evs,
    m w = (w', r) /\ files w' = files w /\ wfault w' = wfault w /\
    trace w' = trace w ++ evs /\ evs ⊆ allowed.

(** A computation that opens the chunk file at [p] fails when nothing is
    there, when a folder is there, and when the file has length zero. *)
Definition failsOnBadFile {A} (m : M A) (w : World) (p : string) : Prop :=
  (files w !! p = None -> snd (m w) = Err (PathError "stat" p ENOENT)) /\
  (files w !! p = Some Dir ->
     snd (m w) = Err (New "chunk file is a directory")) /\
  (files w !! p = Some (Regular []) ->
     snd (m w) = Err (New "chunk file is empty")).

(** ** The scan of [Channels], seen from the namespace *)

(** The path a visit makes the scan read: an entry that is no folder
    and whose path ends in the chunk extension. *)
Definition scanned (v : visit) : option string :=
  match v with
  | VisitEntry p false => if HasSuffix p ext then Some p else None
  | _ => None
  end.

Section Scan.
Context `{ChunkConsts} `{Externals}.

(** What a visit adds to the channels collected. *)
Definition contribution (fs : gmap string inode) (v : visit)
    : list SlackChannel :=
  match scanned v with
  | Some p => match chanInfoAt fs p with Ok chs => chs | Err _ => [] end
  | None => []
  end.

(** The error, if any, with which a visit ends the walk: the error the
    walk itself reports, or an error of reading the file other than "no
    channel info". *)
Definition fatal (fs : gmap string inode) (v : visit) : option error :=
  match v with
  | VisitErr _ _ e => Some e
  | VisitEntry _ _ =>
      match scanned v with
      | Some p =>
          match chanInfoAt fs p with
          | Err e => if errors_Is e errNoChannelInfo then None else Some e
          | Ok _ => None
          end
      | None => None
      end
  end.

End Scan.

(** ** A sample environment

    One choice of the parameters, small enough to run: paths are taken as
    already clean, a compressed stream is its payload behind the two
    magic bytes of GZIP, a channel in the flat array is one byte (its id),
    a chunk is two bytes (its type and the first character of its channel
    id), and the walk lists the root and then what lies below it by
    path. *)

Definition byteString (b : Byte.byte) : string :=
  String (ascii_of_byte b) "".

Definition firstByte (s : string) : Byte.byte :=
  match s with
  | String a _ => byte_of_ascii a
  | EmptyString => Byte.x00
  end.

Definition byteOfZ (n : Z) : Byte.byte :=
  default Byte.x00 (Byte.of_N (Z.to_N n)).

Definition sample_gzip (data : bytes) : bytes :=
  Byte.x1f :: Byte.x8b :: data.

Definition sample_gunzip (data : bytes) : result bytes :=
  match data with
  | Byte.x1f :: Byte.x8b :: payload => Ok payload
  | _ => Err (New "gzip: invalid header")
  end.

Definition sample_decode_channels (data : bytes) : result (list SlackChannel) :=
  Ok (map (fun b => {| chan_ID := byteString b; chan_Name := "" |}) data).

Definition sample_encode_chunk (c : Chunk) : bytes :=
  [byteOfZ (Type_ c); firstByte (ChannelID c)].

Definition sample_decode_chunk (data : bytes) : result (option (Chunk * bytes)) :=
  match data with
  | [] => Ok None
  | t :: ch :: rest =>
      Ok (Some (testChunk (Z.of_N (Byte.to_N t)) false (byteString ch) None, rest))
  | [_] => Err (New "unexpected end of JSON input")
  end.

Definition sample_AllChannelInfos (f : File) : result (list SlackChannel) :=
  match filter (fun c => Type_ c = 3) (chunks f) with
  | [] => Err errNoChannelInfo
  | cis => Ok (map (fun c => {| chan_ID := ChannelID c; chan_Name := "" |}) cis)
  end.

Definition sample_AllUsers (f : File) : result (list SlackUser) :=
  Ok (concat (map Users (filter (fun c => Type_ c = 4) (chunks f)))).

Definition sample_walk (fs : gmap string inode) (root : string) : list visit :=
  match fs !! root with
  | None => [VisitErr root None (PathError "lstat" root ENOENT)]
  | Some n =>
      VisitEntry root (IsDir (fileInfoOf n)) ::
      map (fun pn : string * inode => VisitEntry pn.1 (IsDir (fileInfoOf pn.2)))
        (merge_sort (fun a b : string * inode => String.le a.1 b.1)
           (filter (fun pn : string * inode => String.prefix (root +:+ "/") pn.1 = true)
              (map_to_list fs)))
  end.

Definition sampleExternals : Externals :=
  {| Clean := fun p => p;
     walkVisits := sample_walk;
     gzip_compress := sample_gzip;
     gunzip := sample_gunzip;
     json_decode_channels := sample_decode_channels;
     json_encode_chunk := sample_encode_chunk;
     json_decode_chunk := sample_decode_chunk;
     AllChannelInfos := sample_AllChannelInfos;
     AllUsers := sample_AllUsers |}.

Definition emptyWorld : World :=
  {| files := ∅; fds := ∅; gzs := ∅; nextid := 3; wfault := None; trace := [] |}.

Definition worldOf (fs : list (string * inode)) : World :=
  setFiles (list_to_map fs) emptyWorld.

(** An export with three conversation files, the second without channel
    info, and a file that is no chunk file. *)
Definition scanWorld : World :=
  worldOf
    [("exp", Dir);
     ("exp/a.json.gz", Regular (sample_gzip [Byte.x03; Byte.x41; Byte.x00; Byte.x41]));
     ("exp/b.json.gz", Regular (sample_gzip [Byte.x00; Byte.x42]));
     ("exp/c.json.gz", Regular (sample_gzip [Byte.x03; Byte.x43]));
     ("exp/notes.txt", Regular [Byte.x68; Byte.x69])].

(** The same export with a snapshot of two channels next to the
    conversation files. *)
Definition snapshotWorld : World :=
  worldOf
    [("exp", Dir);
     ("exp/a.json.gz", Regular (sample_gzip [Byte.x03; Byte.x41]));
     ("exp/channels.json.gz", Regular (sample_gzip [Byte.x58; Byte.x59]))].

(** The export of [scanWorld] after its second file was cut to nothing. *)
Definition brokenWorld : World :=
  worldOf
    [("exp", Dir);
     ("exp/a.json.gz", Regular (sample_gzip [Byte.x03; Byte.x41]));
     ("exp/b.json.gz", Regular []);
     ("exp/c.json.gz", Regular (sample_gzip [Byte.x03; Byte.x43]))].

(** A folder with nothing in it. *)
Definition freshWorld : World := worldOf [("exp", Dir)].

(** A folder whose users file exists and has length zero. *)
Definition touchedWorld : World :=
  worldOf [("exp", Dir); ("exp/users.json.gz", Regular [])].

Section Programs.
Context `{ChunkConsts} `{Externals}.

(** A caller that creates a chunk file, writes chunks and closes. *)
Definition writeFile (d : Directory) (name : string) (cs : list Chunk) : M unit :=
  let* cw := Directory_Create d name in
  writeChunks (WriteCloser cw) cs ;;
  closewrapper_Close cw.


End Programs.

(** The fresh folder after a caller created the file [a], wrote one
    channel-info chunk and closed the writer. *)
Definition writtenWorld : World :=
  fst (@writeFile sampleExternals {| dir := "exp" |} "a"
         [testChunk 3 false "A" None] freshWorld).

Definition setFault (e : option errno) (w : World) : World :=
  {| files := files w; fds := fds w; gzs := gzs w; nextid := nextid w;
     wfault := e; trace := trace w |}.

(** A caller creates the file [a] in the fresh folder; the disk fills up;
    the caller closes the writer. *)
Definition closeOnFullDisk : World * result unit :=
  (let* cw := @Directory_Create sampleExternals {| dir := "exp" |} "a" in
   fun w => closewrapper_Close cw (setFault (Some ENOSPC) w)) freshWorld.

(** The same caller on a disk with room. *)
Definition closeOnGoodDisk : World * result unit :=
  (let* cw := @Directory_Create sampleExternals {| dir := "exp" |} "a" in
   closewrapper_Close cw) freshWorld.

(** The bytes of a chunk stream: the objects one after another. *)
Definition encodeChunks `{Externals} (cs : list Chunk) : bytes :=
  concat (map json_encode_chunk cs).


(** ** Descriptors

    Descriptors are numbered from [nextid] upwards; a world is well kept
    when no number still to be handed out is in use. *)

Definition fdsFresh (w : World) : Prop :=
  forall n : nat, (nextid w <= n)%nat -> fds w !! n = None.

(** A computation that, whatever it returns, leaves the namespace, the
    set of open descriptors and the write fault as it found them, in a
    world that is still well kept. *)
Definition quiet {A} (m : M A) : Prop :=
  forall w : World, fdsFresh w ->
    files (fst (m w)) = files w /\
    fds (fst (m w)) = fds w /\
    wfault (fst (m w)) = wfault w /\
    fdsFresh (fst (m w)).

#[global] Instance event_eq_dec : EqDecision event.
Proof. solve_decision. Defined.

(** The events the scan of [Channels] can leave for a list of visits. *)
Definition scanEvents (vs : list visit) : list event :=
  concat (map (fun v => match scanned v with
                        | Some p => openEvents p
                        | None => []
                        end) vs).

Section MorePrograms.
Context `{ChunkConsts} `{Externals}.

(** A caller that closes its writer a second time. *)
Definition closeTwice (d : Directory) (name : string) (cs : list Chunk) : M unit :=
  let* cw := Directory_Create d name in
  writeChunks (WriteCloser cw) cs ;;
  closewrapper_Close cw ;;
  closewrapper_Close cw.

(** A caller that asks for the same file twice before writing. *)
Definition createTwice (d : Directory) (name : string)
    : M (closewrapper * closewrapper) :=
  let* cw1 := Directory_Create d name in
  let* cw2 := Directory_Create d name in
  ret (cw1, cw2).

(** A caller that writes a file, closes it and asks for it again. *)
Definition writeThenCreate (d : Directory) (name : string) (cs : list Chunk)
    : M closewrapper :=
  writeFile d name cs ;;
  Directory_Create d name.

End MorePrograms.

(** [Close] of a writer, called [n] more times from an earlier outcome. *)
Definition retryClose (c : closewrapper) (n : nat) (st : World * result unit)
    : World * result unit :=
  Nat.iter n (fun st => closewrapper_Close c (fst st)) st.

(** The world of [closeOnFullDisk] at the moment the writer is closed. *)
Definition fullDiskWorld : World :=
  setFault (Some ENOSPC)
    (fst (@Directory_Create sampleExternals {| dir := "exp" |} "a" freshWorld)).

(** ** More of the Go standard library: strings and path names

    Pure functions of packages [strings] and [path/filepath] (Unix
    flavour), written as the library has them. *)

(** [strings.HasPrefix]. *)
Definition HasPrefix (s prefix : string) : bool := String.prefix prefix s.

(** [strings.TrimPrefix]. *)
Definition TrimPrefix (s prefix : string) : string :=
  if HasPrefix s prefix
  then substring (String.length prefix)
         (String.length s - String.length prefix) s
  else s.

(** [strings.Index]: the position of the first occurrence of [substr]. *)
Fixpoint strings_Index (s substr : string) : option nat :=
  if String.prefix substr s then Some 0%nat
  else match s with
       | EmptyString => None
       | String _ rest => S <$> strings_Index rest substr
       end.

(** [strings.Contains]. *)
Definition Contains (s substr : string) : bool :=
  bool_decide (is_Some (strings_Index s substr)).

(** [strings.Split] for a separator that is not empty: [s] is cut at
    every occurrence of [sep]; there is always at least one part. *)
Fixpoint splitLoop (fuel : nat) (s sep : string) : list string :=
  match fuel with
  | O => [s]
  | S fuel =>
      match strings_Index s sep with
      | None => [s]
      | Some m =>
          substring 0 m s ::
          splitLoop fuel
            (substring (m + String.length sep)
               (String.length s - (m + String.length sep)) s) sep
      end
  end.

Definition strings_Split (s sep : string) : list string :=
  splitLoop (String.length s) s sep.

(** The loop of [filepath.Ext], which runs from the last byte of the path
    backwards until a separator: at a dot, the rest of the path from
    there is the extension. *)
Fixpoint extScan (backwards : list ascii) (seen : list ascii) : list ascii :=
  match backwards with
  | [] => []
  | c :: before =>
      if Ascii.eqb c "/" then []
      else if Ascii.eqb c "." then c :: seen
      else extScan before (c :: seen)
  end.

(** [filepath.Ext]. *)
Definition filepath_Ext (path : string) : string :=
  string_of_list_ascii (extScan (rev (list_ascii_of_string path)) []).

(** The two loops of [filepath.Base]: trailing separators are stripped,
    then the last element is what follows the last separator left. *)
Fixpoint stripSlashes (backwards : list ascii) : list ascii :=
  match backwards with
  | c :: before => if Ascii.eqb c "/" then stripSlashes before else backwards
  | [] => []
  end.

Fixpoint lastElement (backwards : list ascii) (seen : list ascii) : list ascii :=
  match backwards with
  | [] => seen
  | c :: before =>
      if Ascii.eqb c "/" then seen else lastElement before (c :: seen)
  end.

(** [filepath.Base]. *)
Definition filepath_Base (path : string) : string :=
  if String.eqb path "" then "."
  else
    match lastElement (stripSlashes (rev (list_ascii_of_string path))) [] with
    | [] => "/"
    | elem => string_of_list_ascii elem
    end.

(** A string without a path separator in it. *)
Definition noSlash (s : string) : Prop :=
  ~ In "/"%char (list_ascii_of_string s).

(** ** cache/manager.go: names of workspace files *)

Definition wspExt : string := ".bin".
Definition defCredsFile : string := "provider" +:+ wspExt.
Definition defName : string := "default".

(** The fields of [Manager] read below; [authOptions] is only handed on
    to package [auth]. *)
Record Manager := {
  mgr_dir : string;
  userFile : string;
  channelFile : string
}.

(** In [maybeAppendExt] the [ext] declared in the [if] statement hides
    the parameter of the same name: what is appended is the extension
    the file name already has. *)
Definition maybeAppendExt (filename ext : string) : string :=
  if String.eqb ext "" then filename
  else
    let ext := filepath_Ext filename in
    if String.eqb ext "" || String.eqb ext "." then filename +:+ ext
    else filename.

(** An [Option] changes the manager it is applied to. *)
Definition ManagerOption := Manager -> Manager.

Definition WithChannelCacheBase (filename : string) : ManagerOption :=
  fun m =>
    if String.eqb filename "" then m
    else {| mgr_dir := mgr_dir m; userFile := userFile m;
            channelFile := maybeAppendExt filename ".cache" |}.

Definition WithUserCacheBase (filename : string) : ManagerOption :=
  fun m =>
    if String.eqb filename "" then m
    else {| mgr_dir := mgr_dir m;
            userFile := maybeAppendExt filename ".cache";
            channelFile := channelFile m |}.

(** [Manager.filename]. *)
Definition Manager_filename (name : string) : string :=
  if String.eqb name defName || String.eqb name "" then defCredsFile
  else name +:+ wspExt.

Definition wspName (filename : string) : string :=
  let name := filepath_Base filename in
  if String.eqb name defCredsFile then defName
  else
    let ext := filepath_Ext name in
    substring 0 (String.length name - String.length ext) name.

(** [indexOf] and [exist], at any type with decidable equality. *)
Fixpoint indexOfFrom {T} `{EqDecision T} (i : Z) (ss : list T) (s : T) : Z :=
  match ss with
  | [] => -1
  | x :: rest => if decide (s = x) then i else indexOfFrom (i + 1) rest s
  end.

Definition indexOf {T} `{EqDecision T} (ss : list T) (s : T) : Z :=
  indexOfFrom 0 ss s.

Definition exist_ {T} `{EqDecision T} (ss : list T) (s : T) : bool :=
  -1 <? indexOf ss s.

(** ** auth: the name of a workspace

    [url.Parse] of the standard library is taken as given: [url_Host]
    is the [Host] of the parsed address, or the error of parsing. *)
Class URLParser := { url_Host : string -> result string }.

Definition sanitize `{URLParser} (workspace : string) : result string :=
  if negb (Contains workspace ".slack.com") then Ok workspace
  else
    bindResult
      (if HasPrefix workspace "https://" then url_Host workspace
       else Ok workspace)
      (fun workspace =>
         match strings_Split workspace "." with
         | part :: _ => Ok part
         | [] => Ok ""
         end).

(** A parser for the sample runs: the host of an address is what stands
    between ["https://"] and the next ["/"]. *)
Definition sample_url_Host (u : string) : result string :=
  let rest := TrimPrefix u "https://" in
  match strings_Index rest "/" with
  | Some m => Ok (substring 0 m rest)
  | None => Ok rest
  end.

Definition sampleURLParser : URLParser := {| url_Host := sample_url_Host |}.

(** A file name with one more dot when it ends in a dot, as it is
    otherwise. *)
Definition appendedDot (filename : string) : string :=
  if bool_decide (last (list_ascii_of_string filename) = Some "."%char)
  then filename +:+ "."
  else filename.

(** ** structures: the list of included and excluded entities *)

Definition excludePrefix : string := "^".
Definition filePrefix : string := "@".
Definition maxFileEntries : Z := 65536.

Record EntityList := {
  Include : list string;
  Exclude : list string
}.

(** The zero value of [EntityList]. *)
Definition zeroEntityList : EntityList := {| Include := []; Exclude := [] |}.

Definition HasExcludePrefix (s : string) : bool := HasPrefix s excludePrefix.
Definition hasFilePrefix (s : string) : bool := HasPrefix s filePrefix.

(** [sort.Strings]: the strings in increasing order, byte by byte. *)
Definition sort_Strings (l : list string) : list string :=
  merge_sort String.le l.

(** [fromIndex] ranges over a map, and Go leaves the order of that open:
    [fromIndexIn] is the method for one order of the entries,
    [fromIndex] takes the order the map is listed in. *)
Definition appendEntry (el : EntityList) (entry : string * bool) : EntityList :=
  if entry.2
  then {| Include := Include el ++ [entry.1]; Exclude := Exclude el |}
  else {| Include := Include el; Exclude := Exclude el ++ [entry.1] |}.

Definition fromIndexIn (order : list (string * bool)) (el : EntityList)
    : EntityList :=
  let el := fold_left appendEntry order el in
  {| Include := sort_Strings (Include el);
     Exclude := sort_Strings (Exclude el) |}.

Definition fromIndex (index : gmap string bool) (el : EntityList) : EntityList :=
  fromIndexIn (map_to_list index) el.

(** [Index] on a receiver that may be nil. *)
Definition EntityList_Index (el : option EntityList) : gmap string bool :=
  match el with
  | None => ∅
  | Some el =>
      fold_left (fun idx v => <[v := false]> idx) (Exclude el)
        (fold_left (fun idx v => <[v := true]> idx) (Include el) ∅)
  end.

Definition IsExcluded (ei : gmap string bool) (ent : string) : bool :=
  match ei !! ent with
  | Some v => negb v
  | None => false
  end.

Definition IsIncluded (ei : gmap string bool) (ent : string) : bool :=
  match ei !! ent with
  | Some v => v
  | None => false
  end.

Definition HasIncludes (el : EntityList) : bool :=
  (0 <? length (Include el))%nat.

Definition HasExcludes (el : EntityList) : bool :=
  (0 <? length (Exclude el))%nat.

Definition IsEmpty (el : EntityList) : bool :=
  (length (Include el) + length (Exclude el) =? 0)%nat.

(** What this file takes from elsewhere: [linkString ent] is
    [sl.String()] of the link [ParseLink(ent)] returns, or the error of
    [ParseLink] (both are in a file of the package that is not at hand);
    [TrimSpace] is [strings.TrimSpace]. *)
Class EntityExternals := {
  linkString : string -> result string;
  TrimSpace : string -> string
}.

(** What the first loop of [buildEntryIndex] gathers. *)
Record entries := {
  en_index : gmap string bool;
  en_excluded : list string;
  en_files : list string
}.

(** [bufio.Reader.ReadString] with the delimiter ['\n'] on what is left
    of the input: the line with its delimiter and the rest, or what is
    left and no rest when the input ends first ([io.EOF]). *)
Fixpoint readString (s : string) : string * option string :=
  match s with
  | EmptyString => (EmptyString, None)
  | String c rest =>
      if Ascii.eqb c "010" then (String c EmptyString, Some rest)
      else let '(line, after) := readString rest in (String c line, after)
  end.

(** A line that counts: not empty and not a comment. *)
Definition skipped (line : string) : bool :=
  match line with
  | EmptyString => true
  | String c _ => Ascii.eqb c "#"
  end.

Section Entities.
Context `{EntityExternals}.

(** The first loop of [buildEntryIndex]. *)
Fixpoint scanEntries (links : list string) (en : entries) : result entries :=
  match links with
  | [] => Ok en
  | ent :: rest =>
      if String.eqb ent "" then scanEntries rest en
      else if HasExcludePrefix ent then
        let trimmed := TrimPrefix ent excludePrefix in
        if String.eqb trimmed "" then scanEntries rest en
        else
          match linkString trimmed with
          | Err e => Err e
          | Ok sl =>
              scanEntries rest
                {| en_index := en_index en;
                   en_excluded := en_excluded en ++ [sl];
                   en_files := en_files en |}
          end
      else if hasFilePrefix ent then
        let trimmed := TrimPrefix ent filePrefix in
        if String.eqb trimmed "" then scanEntries rest en
        else
          scanEntries rest
            {| en_index := en_index en;
               en_excluded := en_excluded en;
               en_files := en_files en ++ [trimmed] |}
      else
        match linkString ent with
        | Err e => Err e
        | Ok sl =>
            scanEntries rest
              {| en_index := <[sl := true]> (en_index en);
                 en_excluded := en_excluded en;
                 en_files := en_files en |}
        end
  end.

(** The inner loop over the index of a loaded file. *)
Definition mergeEntry (acc : gmap string bool * list string)
    (entry : string * bool) : gmap string bool * list string :=
  if entry.2 then (<[entry.1 := true]> acc.1, acc.2)
  else (acc.1, acc.2 ++ [entry.1]).

(** The second loop: every file is loaded and its index merged in. *)
Fixpoint loadFiles (load : string -> M EntityList) (files : list string)
    (acc : gmap string bool * list string)
    : M (gmap string bool * list string) :=
  match files with
  | [] => ret acc
  | file :: rest =>
      let* el := load file in
      loadFiles load rest
        (fold_left mergeEntry (map_to_list (EntityList_Index (Some el))) acc)
  end.

(** The loop of [readEntityList]; every round but the last consumes a
    line of the input, so its length bounds the number of rounds. *)
Fixpoint readLoop (fuel : nat) (data : string) (maxEntries total : Z)
    (elements : list string) : result (list string) :=
  match fuel with
  | O => Err (New "reader made no progress")
  | S fuel =>
      if maxEntries <=? total then Err (New "maximum file size exceeded")
      else
        let '(line, after) := readString data in
        let line := TrimSpace line in
        match after with
        | None => Ok (if skipped line then elements else elements ++ [line])
        | Some rest =>
            if skipped line then readLoop fuel rest maxEntries total elements
            else readLoop fuel rest maxEntries (total + 1) (elements ++ [line])
        end
  end.

(** [NewEntityList], [readEntityList] and [LoadEntityList] call
    [buildEntryIndex], which calls [LoadEntityList] for every file it is
    pointed to; [build] stands for that call. *)
Definition NewEntityListWith (build : list string -> M (gmap string bool))
    (entities : list string) : M EntityList :=
  let* index := build entities in
  ret (fromIndex index zeroEntityList).

Definition readEntityListWith (build : list string -> M (gmap string bool))
    (data : string) (maxEntries : Z) : M EntityList :=
  let* elements := lift (readLoop (S (String.length data)) data maxEntries 0 []) in
  NewEntityListWith build elements.

Definition LoadEntityListWith (build : list string -> M (gmap string bool))
    (filename : string) : M EntityList :=
  let* f := os_Open filename in
  defer (os_File_Close f)
    (let* data := readAll f in
     readEntityListWith build (string_of_list_byte data) maxFileEntries).

(** [buildEntryIndex]; [depth] bounds how deep files may point to
    files. *)
Fixpoint buildEntryIndex (depth : nat) (links : list string)
    : M (gmap string bool) :=
  let* en := lift (scanEntries links
                     {| en_index := ∅; en_excluded := []; en_files := [] |}) in
  let* acc :=
    loadFiles
      (match depth with
       | O => fun _ => fail (New "files nested too deep")
       | S depth => LoadEntityListWith (buildEntryIndex depth)
       end)
      (en_files en) (en_index en, en_excluded en) in
  ret (fold_left (fun idx ent => <[ent := false]> idx) acc.2 acc.1).

Definition NewEntityList (depth : nat) (entities : list string) : M EntityList :=
  NewEntityListWith (buildEntryIndex depth) entities.

Definition LoadEntityList (depth : nat) (filename : string) : M EntityList :=
  LoadEntityListWith (buildEntryIndex depth) filename.

End Entities.

(** A sample of the two parameters: a link is its own string unless it
    holds a blank, and blanks, tabs and line ends are trimmed. *)
Definition isBlank (c : ascii) : bool :=
  Ascii.eqb c " " || Ascii.eqb c "009" || Ascii.eqb c "010" || Ascii.eqb c "013".

Fixpoint dropBlanks (l : list ascii) : list ascii :=
  match l with
  | c :: rest => if isBlank c then dropBlanks rest else l
  | [] => []
  end.

Definition sample_TrimSpace (s : string) : string :=
  string_of_list_ascii
    (rev (dropBlanks (rev (dropBlanks (list_ascii_of_string s))))).

Definition sample_linkString (s : string) : result string :=
  if Contains s " " then Err (New "not a supported slack URL or ID") else Ok s.

Definition sampleEntityExternals : EntityExternals :=
  {| linkString := sample_linkString; TrimSpace := sample_TrimSpace |}.

(** A folder with a list file that excludes one channel. *)
Definition listWorld : World :=
  worldOf
    [("lists", Dir);
     ("lists/skip.txt",
      Regular (list_byte_of_string
                 (String "#" (String " " (String "x" (String "010"
                 (String "^" (String "C" (String "2" (String "010" ""))))))))))].

(** A string without a line end in it. *)
Definition noNewline (s : string) : Prop :=
  ~ In "010"%char (list_ascii_of_string s).

(** The text made of [lines], each followed by a line end, and then
    [tail]. *)
Definition linesThen (lines : list string) (tail : string) : string :=
  fold_right (fun l acc => l +:+ String "010" acc) tail lines.

(** * Theorems *)

(** Paths stay folded during simplification. *)
Arguments filepath_Join : simpl never.
Arguments Directory_filename : simpl never.
Arguments overwrite : simpl never.


Lemma append_empty_r (s : string) : s +:+ "" = s.
Proof.
  induction s as [|a s IH]; [reflexivity|].
  change (String a s +:+ "") with (String a (s +:+ "")). now rewrite IH.
Qed.

Ltac type_tests :=
  repeat match goal with
  | |- context [?a =? ?a] => rewrite (Z.eqb_refl a)
  | |- context [?a =? ?b] =>
      let E := fresh in destruct (Z.eqb_spec a b) as [E|E]; [congruence|]
  end.

Section IdentityFacts.
Context `{ChunkConsts}.

Lemma namedTypes_distinct :
  consts_distinct ->
  CMessages <> CThreadMessages /\ CMessages <> CFiles /\
  CMessages <> CChannelInfo /\ CMessages <> CUsers /\
  CMessages <> CChannels /\ CThreadMessages <> CFiles /\
  CThreadMessages <> CChannelInfo /\ CThreadMessages <> CUsers /\
  CThreadMessages <> CChannels /\ CFiles <> CChannelInfo /\
  CFiles <> CUsers /\ CFiles <> CChannels /\
  CChannelInfo <> CUsers /\ CChannelInfo <> CChannels /\
  CUsers <> CChannels.
Proof.
  unfold consts_distinct, namedTypes. intros Hnd.
  repeat match goal with
  | Hn : NoDup (_ :: _) |- _ => apply NoDup_cons in Hn; destruct Hn
  end.
  repeat match goal with
  | Hn : _ ∉ _ :: _ |- _ => apply not_elem_of_cons in Hn; destruct Hn
  end.
  repeat split; congruence.
Qed.

Lemma ID_unknown (c : Chunk) :
  Type_ c ∉ namedTypes ->
  Chunk_ID c = "<unknown:ChunkType(" +:+ Itoa (Type_ c) +:+ ")>".
Proof.
  unfold namedTypes. intros Hn.
  repeat (apply not_elem_of_cons in Hn; destruct Hn as [? Hn]).
  unfold Chunk_ID.
  repeat match goal with
  | |- context [?a =? ?b] => destruct (Z.eqb_spec a b); [congruence|]
  end.
  reflexivity.
Qed.

End IdentityFacts.

(** C1: the identity of a chunk is the string the table of section 3 gives
    for its type, thread flag and parent: the channel id for Messages,
    ["t" + channel + ":" + parent thread timestamp] for ThreadMessages,
    ["f" + channel + ":" + parent timestamp] for Files, ["ci"] or ["tci"]
    followed by the channel for ChannelInfo, the two sentinels for Users
    and Channels, and ["<unknown:ChunkType(N)>"] for any other type value
    N; two chunks that agree on the fields the table reads have the same
    identity. *)
Theorem ID_table `{ChunkConsts} (c : Chunk) :
  consts_distinct ->
  (Type_ c = CMessages -> Chunk_ID c = ChannelID c) /\
  (Type_ c = CThreadMessages -> forall p, Parent c = Some p ->
     Chunk_ID c = "t" +:+ ChannelID c +:+ ":" +:+ Msg_ThreadTimestamp p) /\
  (Type_ c = CFiles -> forall p, Parent c = Some p ->
     Chunk_ID c = "f" +:+ ChannelID c +:+ ":" +:+ Msg_Timestamp p) /\
  (Type_ c = CChannelInfo -> IsThread c = false ->
     Chunk_ID c = "ci" +:+ ChannelID c) /\
  (Type_ c = CChannelInfo -> IsThread c = true ->
     Chunk_ID c = "tci" +:+ ChannelID c) /\
  (Type_ c = CUsers -> Chunk_ID c = userChunkID) /\
  (Type_ c = CChannels -> Chunk_ID c = channelChunkID) /\
  (Type_ c ∉ namedTypes ->
     Chunk_ID c = "<unknown:ChunkType(" +:+ Itoa (Type_ c) +:+ ")>") /\
  (forall c', sameSubject c c' -> Chunk_ID c' = Chunk_ID c).
Proof.
  intros Hd. pose proof (namedTypes_distinct Hd) as Hne.
  repeat match type of Hne with _ /\ _ => destruct Hne as [? Hne] end.
  split; [|split; [|split; [|split; [|split; [|split; [|split; [|split]]]]]]].
  1-7: intros Ht; unfold Chunk_ID, anchor; rewrite Ht; type_tests.
  - reflexivity.
  - intros p Hp. rewrite Hp. reflexivity.
  - intros p Hp. rewrite Hp. reflexivity.
  - intros Hth. rewrite Hth. reflexivity.
  - intros Hth. rewrite Hth. reflexivity.
  - reflexivity.
  - reflexivity.
  - apply ID_unknown.
  - intros c' (Ht & Hth & Hch & Hp). unfold Chunk_ID, anchor.
    rewrite Ht, Hth, Hch, Hp. reflexivity.
Qed.

(** The rows of the table of [chunk_test.go]. *)
Lemma ID_table_witness :
  @consts_distinct sampleConsts /\
  @Chunk_ID sampleConsts (testChunk 0 false "C123" None) = "C123" /\
  @Chunk_ID sampleConsts
    (testChunk 1 false "C123"
       (Some {| Msg_Timestamp := ""; Msg_ThreadTimestamp := "1234" |}))
    = "tC123:1234" /\
  @Chunk_ID sampleConsts
    (testChunk 2 false "C123"
       (Some {| Msg_Timestamp := "1234"; Msg_ThreadTimestamp := "" |}))
    = "fC123:1234" /\
  @Chunk_ID sampleConsts (testChunk 3 false "C123" None) = "ciC123" /\
  @Chunk_ID sampleConsts (testChunk 3 true "C123" None) = "tciC123" /\
  @Chunk_ID sampleConsts (testChunk 4 false "" None) = "lusr" /\
  @Chunk_ID sampleConsts (testChunk 5 false "" None) = "lch" /\
  @Chunk_ID sampleConsts (testChunk 999 false "" None) = "<unknown:ChunkType(999)>".
Proof.
  assert (Hd : @consts_distinct sampleConsts) by compute_done.
  split; [exact Hd|].
  split; [|split; [|split; [|split; [|split; [|split; [|split]]]]]].
  - exact (proj1 (@ID_table sampleConsts (testChunk 0 false "C123" None) Hd) eq_refl).
  - destruct (@ID_table sampleConsts (testChunk 1 false "C123"
       (Some {| Msg_Timestamp := ""; Msg_ThreadTimestamp := "1234" |})) Hd)
      as (_ & Ht & _).
    exact (Ht eq_refl _ eq_refl).
  - destruct (@ID_table sampleConsts (testChunk 2 false "C123"
       (Some {| Msg_Timestamp := "1234"; Msg_ThreadTimestamp := "" |})) Hd)
      as (_ & _ & Ht & _).
    exact (Ht eq_refl _ eq_refl).
  - destruct (@ID_table sampleConsts (testChunk 3 false "C123" None) Hd)
      as (_ & _ & _ & Ht & _).
    exact (Ht eq_refl eq_refl).
  - destruct (@ID_table sampleConsts (testChunk 3 true "C123" None) Hd)
      as (_ & _ & _ & _ & Ht & _).
    exact (Ht eq_refl eq_refl).
  - destruct (@ID_table sampleConsts (testChunk 4 false "" None) Hd)
      as (_ & _ & _ & _ & _ & Ht & _).
    exact (Ht eq_refl).
  - destruct (@ID_table sampleConsts (testChunk 5 false "" None) Hd)
      as (_ & _ & _ & _ & _ & _ & Ht & _).
    exact (Ht eq_refl).
  - destruct (@ID_table sampleConsts (testChunk 999 false "" None) Hd)
      as (_ & _ & _ & _ & _ & _ & _ & Ht & _).
    apply Ht. compute_done.
Defined.

(** C7: identity derivation is a total function of the chunk.  A chunk
    whose parent is missing has the identity of the same chunk anchored
    at the zero-value message, so for ThreadMessages and Files the anchor
    part of the identity is empty and the string keeps its shape; a type
    value outside the table takes the unknown-fallback branch. *)
Theorem ID_total `{ChunkConsts} (c : Chunk) :
  consts_distinct ->
  (Parent c = None -> Chunk_ID c = Chunk_ID (withParent (Some zeroMessage) c)) /\
  (Parent c = None -> Type_ c = CThreadMessages ->
     Chunk_ID c = "t" +:+ ChannelID c +:+ ":") /\
  (Parent c = None -> Type_ c = CFiles ->
     Chunk_ID c = "f" +:+ ChannelID c +:+ ":") /\
  (Type_ c ∉ namedTypes ->
     Chunk_ID c = "<unknown:ChunkType(" +:+ Itoa (Type_ c) +:+ ")>").
Proof.
  intros Hd. pose proof (namedTypes_distinct Hd) as Hne.
  repeat match type of Hne with _ /\ _ => destruct Hne as [? Hne] end.
  split; [|split; [|split]].
  - intros Hp. unfold Chunk_ID, anchor. rewrite Hp. reflexivity.
  - intros Hp Ht. unfold Chunk_ID, anchor. rewrite Hp, Ht. type_tests.
    cbn [default zeroMessage Msg_ThreadTimestamp].
    now rewrite append_empty_r.
  - intros Hp Ht. unfold Chunk_ID, anchor. rewrite Hp, Ht. type_tests.
    cbn [default zeroMessage Msg_Timestamp].
    now rewrite append_empty_r.
  - apply ID_unknown.
Qed.

(** A thread chunk and a files chunk without parent, and the unknown
    chunk of [chunk_test.go]. *)
Lemma ID_total_witness :
  @consts_distinct sampleConsts /\
  @Chunk_ID sampleConsts (testChunk 1 false "C123" None) = "tC123:" /\
  @Chunk_ID sampleConsts (testChunk 2 false "C123" None) = "fC123:" /\
  @Chunk_ID sampleConsts (testChunk 999 false "" None) = "<unknown:ChunkType(999)>".
Proof.
  assert (Hd : @consts_distinct sampleConsts) by compute_done.
  split; [exact Hd|]. split; [|split].
  - destruct (@ID_total sampleConsts (testChunk 1 false "C123" None) Hd)
      as (_ & Ht & _).
    exact (Ht eq_refl eq_refl).
  - destruct (@ID_total sampleConsts (testChunk 2 false "C123" None) Hd)
      as (_ & _ & Ht & _).
    exact (Ht eq_refl eq_refl).
  - destruct (@ID_total sampleConsts (testChunk 999 false "" None) Hd)
      as (_ & _ & _ & Ht).
    apply Ht. compute_done.
Defined.

(** ** Opening chunk files *)

Section OpenFacts.
Context `{ChunkConsts} `{Externals}.

Lemma openChunks_missing (p : string) (w : World) :
  files w !! p = None ->
  openChunks p w = (log (EvStat p) w, Err (PathError "stat" p ENOENT)).
Proof.
  intros Hp. unfold openChunks, bind, os_Stat, emit. cbn. now rewrite Hp.
Qed.

Lemma openChunks_dir (p : string) (w : World) :
  files w !! p = Some Dir ->
  openChunks p w = (log (EvStat p) w, Err (New "chunk file is a directory")).
Proof.
  intros Hp. unfold openChunks, bind, os_Stat, emit. cbn. now rewrite Hp.
Qed.

Lemma openChunks_empty (p : string) (w : World) :
  files w !! p = Some (Regular []) ->
  openChunks p w = (log (EvStat p) w, Err (New "chunk file is empty")).
Proof.
  intros Hp. unfold openChunks, bind, os_Stat, emit. cbn. now rewrite Hp.
Qed.

Lemma openChunks_nonempty (p : string) (w : World) (data : bytes) :
  files w !! p = Some (Regular data) -> data <> [] ->
  exists w',
    openChunks p w = (w', mapResult osext_RemoveOnClose (gunzip data)) /\
    files w' = files w /\ wfault w' = wfault w /\
    trace w' = trace w ++ openEvents p.
Proof.
  intros Hp Hd. destruct data as [|b data]; [congruence|].
  assert (Hsz : (Z.of_nat (S (length data)) =? 0) = false)
    by (apply Z.eqb_neq; lia).
  unfold openChunks, bind, os_Stat, emit. cbn. rewrite Hp. cbn. rewrite Hsz.
  unfold os_Open, bind, emit, newFd. cbn. rewrite Hp.
  unfold defer, bind, osext_UnGZIP, bind, readAll, lift, ret. cbn.
  rewrite lookup_insert_eq. cbn. rewrite Hp. cbn.
  destruct (gunzip (b :: data)) as [tf|e]; cbn.
  all: unfold os_File_Close; cbn; rewrite lookup_insert_eq; cbn.
  all: eexists; split; [reflexivity|]; cbn.
  all: rewrite <- !app_assoc; auto.
Qed.

Lemma stat_in_openEvents (p : string) : [EvStat p] ⊆ openEvents p.
Proof. intros e. rewrite list_elem_of_singleton. intros ->. left. Qed.

(** [openChunks] reads the namespace and leaves it as it found it; its
    outcome is a function of the namespace, and it touches one path. *)
Lemma openChunks_spec (p : string) (w : World) :
  exists w' evs,
    openChunks p w =
      (w', mapResult osext_RemoveOnClose (chunkFileContents (files w) p)) /\
    files w' = files w /\ wfault w' = wfault w /\
    trace w' = trace w ++ evs /\ evs ⊆ openEvents p.
Proof.
  unfold chunkFileContents.
  destruct (files w !! p) as [[[|b data]|]|] eqn:Hp.
  - rewrite (openChunks_empty _ _ Hp). exists (log (EvStat p) w), [EvStat p].
    repeat split; auto using stat_in_openEvents.
  - destruct (openChunks_nonempty p w (b :: data) Hp) as (w' & -> & ? & ? & ?);
      [congruence|].
    exists w', (openEvents p). repeat split; auto.
  - rewrite (openChunks_dir _ _ Hp). exists (log (EvStat p) w), [EvStat p].
    repeat split; auto using stat_in_openEvents.
  - rewrite (openChunks_missing _ _ Hp). exists (log (EvStat p) w), [EvStat p].
    repeat split; auto using stat_in_openEvents.
Qed.

Lemma bindResult_assoc {A B C} (r : result A) (f : A -> result B)
    (g : B -> result C) :
  bindResult (bindResult r f) g = bindResult r (fun a => bindResult (f a) g).
Proof. destruct r; reflexivity. Qed.

Lemma openChunks_reads (p : string) (w : World) :
  readsOnly (openChunks p) w
    (mapResult osext_RemoveOnClose (chunkFileContents (files w) p))
    (openEvents p).
Proof. apply openChunks_spec. Qed.

(** After [openChunks], a continuation that computes on the contents and
    a deferred [Close] of the reader. *)
Lemma openChunks_then {A} (p : string) (k : bytes -> result A) (w : World) :
  readsOnly
    (let* f := openChunks p in
     defer (rs_Close f) (lift (k (rs_data f))))
    w (bindResult (chunkFileContents (files w) p) k) (openEvents p).
Proof.
  destruct (openChunks_spec p w) as (w' & evs & Ho & Hf & Hwf & Ht & Hev).
  exists w', evs. unfold bind. rewrite Ho.
  destruct (chunkFileContents (files w) p) as [data|e]; cbn; auto.
Qed.

Lemma loadChanInfo_reads (p : string) (w : World) :
  readsOnly (loadChanInfo p) w (chanInfoAt (files w) p) (openEvents p).
Proof.
  pose proof (openChunks_then p
    (fun data => bindResult (FromReader data) AllChannelInfos) w) as Hk.
  unfold loadChanInfo, readChanInfo, chanInfoAt, fileAt.
  rewrite bindResult_assoc.
  destruct Hk as (w' & evs & Hm & Hrest). exists w', evs. split; [|exact Hrest].
  rewrite <- Hm. unfold bind, defer, lift.
  destruct (openChunks p w) as [w1 [f|e]]; [|reflexivity].
  destruct (FromReader (rs_data f)); reflexivity.
Qed.

Lemma loadChannelsJSON_reads (p : string) (w : World) :
  readsOnly (loadChannelsJSON p) w (channelsJSONAt (files w) p) (openEvents p).
Proof.
  pose proof (openChunks_then p json_decode_channels w) as Hk.
  unfold loadChannelsJSON, readChannelsJSON, channelsJSONAt.
  destruct Hk as (w' & evs & Hm & Hrest). exists w', evs. split; [|exact Hrest].
  rewrite <- Hm. unfold bind, defer, lift, ret.
  destruct (openChunks p w) as [w1 [f|e]]; [|reflexivity].
  destruct (json_decode_channels (rs_data f)); reflexivity.
Qed.

Lemma Users_reads (d : Directory) (w : World) :
  readsOnly (Directory_Users d) w
    (usersAt (files w) (Directory_filename d "users"))
    (openEvents (Directory_filename d "users")).
Proof.
  pose proof (openChunks_then (Directory_filename d "users")
    (fun data => bindResult (FromReader data) AllUsers) w) as Hk.
  unfold Directory_Users, usersAt, fileAt. rewrite bindResult_assoc.
  destruct Hk as (w' & evs & Hm & Hrest). exists w', evs. split; [|exact Hrest].
  rewrite <- Hm. unfold bind, defer, lift, ret.
  destruct (openChunks _ w) as [w1 [f|e]]; [|reflexivity].
  destruct (FromReader (rs_data f)) as [cf|e]; [|reflexivity].
  cbn. destruct (AllUsers cf); reflexivity.
Qed.

Lemma OpenRAW_reads (d : Directory) (name : string) (w : World) :
  readsOnly (Directory_OpenRAW d name) w
    (mapResult osext_RemoveOnClose
       (chunkFileContents (files w) (filepath_Join [name])))
    (openEvents (filepath_Join [name])).
Proof. apply openChunks_spec. Qed.

Lemma Open_reads (d : Directory) (name : string) (w : World) :
  readsOnly (Directory_Open d name) w
    (fileAt (files w) (filepath_Join [Directory_filename d name]))
    (openEvents (filepath_Join [Directory_filename d name])).
Proof.
  destruct (openChunks_spec (filepath_Join [Directory_filename d name]) w)
    as (w' & evs & Ho & Hrest).
  exists w', evs. split; [|exact Hrest].
  unfold Directory_Open, Directory_OpenRAW, fileAt, bind, lift. rewrite Ho.
  destruct (chunkFileContents _ _); reflexivity.
Qed.

End OpenFacts.

Section OpenFailures.
Context `{ChunkConsts} `{Externals}.

Lemma readsOnly_result {A} (m : M A) (w : World) (r : result A)
    (allowed : list event) :
  readsOnly m w r allowed -> snd (m w) = r.
Proof. intros (w' & evs & -> & _). reflexivity. Qed.

End OpenFailures.

(** C6: opening a chunk file fails when the file is missing, is a folder
    or has length zero, whichever way it is opened: [OpenRAW], [Open],
    [Users], the snapshot read of [Channels] and the visit of a file
    during its scan.  The error for a missing file is the path error of
    [os.Stat], which matches [fs.ErrNotExist]; the error for a
    zero-length file is a different value and does not match it. *)
Theorem open_fails_on_bad_file `{ChunkConsts} `{Externals}
    (d : Directory) (name raw path : string) (ch : list SlackChannel)
    (w : World) :
  failsOnBadFile (Directory_OpenRAW d raw) w (filepath_Join [raw]) /\
  failsOnBadFile (Directory_Open d name) w
    (filepath_Join [Directory_filename d name]) /\
  failsOnBadFile (Directory_Users d) w (Directory_filename d "users") /\
  failsOnBadFile (loadChannelsJSON path) w path /\
  (HasSuffix path ext = true ->
   failsOnBadFile (channelsWalkFn (VisitEntry path false) ch) w path) /\
  errors_Is (PathError "stat" path ENOENT) ErrNotExist = true /\
  errors_Is (New "chunk file is empty") ErrNotExist = false /\
  PathError "stat" path ENOENT <> New "chunk file is empty".
Proof.
  split; [|split; [|split; [|split; [|split; [|split; [|split]]]]]].
  - pose proof (OpenRAW_reads d raw w) as Hr. apply readsOnly_result in Hr.
    unfold failsOnBadFile. rewrite Hr. unfold chunkFileContents.
    repeat split; intros ->; reflexivity.
  - pose proof (Open_reads d name w) as Hr. apply readsOnly_result in Hr.
    unfold failsOnBadFile. rewrite Hr. unfold fileAt, chunkFileContents.
    repeat split; intros ->; reflexivity.
  - pose proof (Users_reads d w) as Hr. apply readsOnly_result in Hr.
    unfold failsOnBadFile. rewrite Hr. unfold usersAt, fileAt, chunkFileContents.
    repeat split; intros ->; reflexivity.
  - pose proof (loadChannelsJSON_reads path w) as Hr.
    apply readsOnly_result in Hr.
    unfold failsOnBadFile. rewrite Hr. unfold channelsJSONAt, chunkFileContents.
    repeat split; intros ->; reflexivity.
  - intros Hsuf. pose proof (loadChanInfo_reads path w) as Hr.
    apply readsOnly_result in Hr.
    unfold failsOnBadFile, channelsWalkFn, bind, try. rewrite Hsuf. cbn.
    destruct (loadChanInfo path w) as [w1 r]. cbn in Hr. subst r.
    unfold chanInfoAt, fileAt, chunkFileContents.
    repeat split; intros ->; reflexivity.
  - reflexivity.
  - reflexivity.
  - discriminate.
Qed.

(** In a folder without users file [Users] reports the file as absent;
    in a folder whose users file is empty it reports it as empty. *)
Example Users_absent_or_empty :
  snd (@Directory_Users sampleConsts sampleExternals {| dir := "exp" |} freshWorld)
    = Err (PathError "stat" "exp/users.json.gz" ENOENT) /\
  snd (@Directory_Users sampleConsts sampleExternals {| dir := "exp" |} touchedWorld)
    = Err (New "chunk file is empty").
Proof. vm_compute. auto. Qed.

(** ** [Directory.Channels] *)

Section ChannelsFacts.
Context `{ChunkConsts} `{Externals}.

Lemma Channels_snapshot_step (d : Directory) (w : World) (data : bytes) :
  files w !! Directory_filename d "channels" = Some (Regular data) ->
  Directory_Channels d w =
    loadChannelsJSON (Directory_filename d "channels")
      (log (EvStat (Directory_filename d "channels")) w).
Proof.
  intros Hp. unfold Directory_Channels, bind, try, os_Stat, emit. cbn.
  rewrite Hp. reflexivity.
Qed.

Lemma Channels_scan_step (d : Directory) (w : World) :
  files w !! Directory_filename d "channels" = None \/
  files w !! Directory_filename d "channels" = Some Dir ->
  Directory_Channels d w =
    walkLoop channelsWalkFn (walkVisits (files w) (dir d)) []
      (log (EvWalkDir (dir d))
         (log (EvStat (Directory_filename d "channels")) w)).
Proof.
  intros [Hp|Hp]; unfold Directory_Channels, bind, try, os_Stat, emit; cbn;
    rewrite Hp; reflexivity.
Qed.

End ChannelsFacts.

(** C2: when the snapshot file [channels.json.gz] of a directory is a
    regular file, [Channels] returns what decoding that file as a flat
    JSON array gives (or the error of opening it), whatever else the
    directory holds: the namespace is left as it was, nothing is walked,
    and every system call made is on the snapshot's own path. *)
Theorem Channels_prefers_snapshot `{ChunkConsts} `{Externals}
    (d : Directory) (w : World) (data : bytes) :
  files w !! Directory_filename d "channels" = Some (Regular data) ->
  readsOnly (Directory_Channels d) w
    (channelsJSONAt (files w) (Directory_filename d "channels"))
    (openEvents (Directory_filename d "channels")) /\
  channelsJSONAt (files w) (Directory_filename d "channels") =
    match data with
    | [] => Err (New "chunk file is empty")
    | _ => bindResult (gunzip data) json_decode_channels
    end /\
  (forall w2 : World,
     files w2 !! Directory_filename d "channels" = Some (Regular data) ->
     snd (Directory_Channels d w2) = snd (Directory_Channels d w)).
Proof.
  intros Hp.
  assert (Hrd : forall w0, files w0 !! Directory_filename d "channels"
                             = Some (Regular data) ->
    readsOnly (Directory_Channels d) w0
      (channelsJSONAt (files w0) (Directory_filename d "channels"))
      (openEvents (Directory_filename d "channels"))).
  { intros w0 Hp0. unfold readsOnly.
    rewrite (Channels_snapshot_step d w0 data Hp0).
    destruct (loadChannelsJSON_reads (Directory_filename d "channels")
                (log (EvStat (Directory_filename d "channels")) w0))
      as (w' & evs & Hm & Hf & Hwf & Ht & Hev).
    exists w', (EvStat (Directory_filename d "channels") :: evs).
    cbn in Hm, Hf, Hwf, Ht. rewrite <- app_assoc in Ht.
    repeat split; auto.
    intros e [->|He]%elem_of_cons; [left|auto]. }
  split; [auto|]. split.
  - unfold channelsJSONAt, chunkFileContents. rewrite Hp.
    destruct data; reflexivity.
  - intros w2 Hp2.
    rewrite (readsOnly_result _ _ _ _ (Hrd w2 Hp2)).
    rewrite (readsOnly_result _ _ _ _ (Hrd w Hp)).
    unfold channelsJSONAt, chunkFileContents. rewrite Hp, Hp2. reflexivity.
Qed.

(** The snapshot of the sample export wins over its conversation file. *)
Lemma Channels_prefers_snapshot_witness :
  files snapshotWorld !! @Directory_filename sampleExternals {| dir := "exp" |} "channels"
    = Some (Regular (sample_gzip [Byte.x58; Byte.x59])) /\
  snd (@Directory_Channels sampleConsts sampleExternals {| dir := "exp" |}
         snapshotWorld)
    = Ok [{| chan_ID := "X"; chan_Name := "" |};
          {| chan_ID := "Y"; chan_Name := "" |}].
Proof.
  assert (Hp : files snapshotWorld
                 !! @Directory_filename sampleExternals {| dir := "exp" |} "channels"
               = Some (Regular (sample_gzip [Byte.x58; Byte.x59])))
    by (vm_compute; reflexivity).
  split; [exact Hp|].
  destruct (@Channels_prefers_snapshot sampleConsts sampleExternals _ _ _ Hp)
    as (Hr & Hres & _).
  rewrite (readsOnly_result _ _ _ _ Hr). rewrite Hres. reflexivity.
Defined.

Section ScanFacts.
Context `{ChunkConsts} `{Externals}.

(** One call of the callback of the walk. *)
Lemma channelsWalkFn_step (v : visit) (ch : list SlackChannel) (w : World) :
  exists w',
    files w' = files w /\
    channelsWalkFn v ch w =
      (w', match fatal (files w) v with
           | Some e => Err e
           | None => Ok (ch ++ contribution (files w) v)
           end).
Proof.
  destruct v as [p isDir|p dd e]; [|exists w; split; reflexivity].
  unfold fatal, contribution, scanned, channelsWalkFn.
  destruct isDir.
  { destruct (HasSuffix p ext); cbn; exists w; rewrite app_nil_r; auto. }
  destruct (HasSuffix p ext); cbn; [|exists w; rewrite app_nil_r; auto].
  destruct (loadChanInfo_reads p w) as (w' & evs & Hm & Hf & _).
  exists w'. split; [exact Hf|]. unfold bind, try. rewrite Hm.
  destruct (chanInfoAt (files w) p) as [chs|e]; [reflexivity|].
  destruct (errors_Is e errNoChannelInfo); [|reflexivity].
  unfold ret. now rewrite app_nil_r.
Qed.

Lemma walkLoop_ok (fs : gmap string inode) (vs : list visit) :
  Forall (fun v => fatal fs v = None) vs ->
  forall (ch : list SlackChannel) (w : World), files w = fs ->
  exists w',
    files w' = fs /\
    walkLoop channelsWalkFn vs ch w =
      (w', Ok (ch ++ concat (map (contribution fs) vs))).
Proof.
  induction 1 as [|v vs Hv Hvs IH]; intros ch w Hw.
  - exists w. cbn. rewrite app_nil_r. auto.
  - destruct (channelsWalkFn_step v ch w) as (w1 & Hf1 & Hstep).
    rewrite Hw, Hv in Hstep.
    destruct (IH (ch ++ contribution fs v) w1) as (w' & Hf' & Hloop);
      [congruence|].
    exists w'. split; [exact Hf'|].
    cbn. unfold bind. rewrite Hstep, Hloop. now rewrite <- app_assoc.
Qed.

Lemma walkLoop_abort (fs : gmap string inode) (pre post : list visit)
    (v : visit) (e : error) :
  Forall (fun v => fatal fs v = None) pre ->
  fatal fs v = Some e ->
  forall (ch : list SlackChannel) (w : World), files w = fs ->
  snd (walkLoop channelsWalkFn (pre ++ v :: post) ch w) = Err e.
Proof.
  induction 1 as [|v0 pre Hv0 Hpre IH]; intros Hv ch w Hw.
  - destruct (channelsWalkFn_step v ch w) as (w1 & Hf1 & Hstep).
    rewrite Hw, Hv in Hstep. cbn. unfold bind. now rewrite Hstep.
  - destruct (channelsWalkFn_step v0 ch w) as (w1 & Hf1 & Hstep).
    rewrite Hw, Hv0 in Hstep. cbn. unfold bind. rewrite Hstep.
    apply IH; [exact Hv|congruence].
Qed.

End ScanFacts.

(** C3: when the snapshot file is absent (or is a folder), [Channels]
    walks the directory and reads every entry that is no folder and
    whose path ends in [.json.gz].  If no visit is fatal, the result is
    the concatenation, in walk order and with repetitions kept, of what
    each file holds; a file whose reading ends in "no channel info"
    adds nothing and the walk goes on.  The first visit that is fatal
    (an error reported by the walk, or any other error of opening or
    decoding a file) ends the walk, and its error is the result. *)
Theorem Channels_scans_when_no_snapshot `{ChunkConsts} `{Externals}
    (d : Directory) (w : World) :
  files w !! Directory_filename d "channels" = None \/
  files w !! Directory_filename d "channels" = Some Dir ->
  (Forall (fun v => fatal (files w) v = None) (walkVisits (files w) (dir d)) ->
   snd (Directory_Channels d w) =
     Ok (concat (map (contribution (files w)) (walkVisits (files w) (dir d))))) /\
  (forall pre v post e,
     walkVisits (files w) (dir d) = pre ++ v :: post ->
     Forall (fun v => fatal (files w) v = None) pre ->
     fatal (files w) v = Some e ->
     snd (Directory_Channels d w) = Err e) /\
  (forall v p e,
     scanned v = Some p -> chanInfoAt (files w) p = Err e ->
     (errors_Is e errNoChannelInfo = true ->
        fatal (files w) v = None /\ contribution (files w) v = []) /\
     (errors_Is e errNoChannelInfo = false -> fatal (files w) v = Some e)).
Proof.
  intros Hp. rewrite (Channels_scan_step d w Hp).
  split; [|split].
  - intros Hok.
    destruct (walkLoop_ok (files w) _ Hok []
                (log (EvWalkDir (dir d))
                   (log (EvStat (Directory_filename d "channels")) w)))
      as (w' & _ & ->); reflexivity.
  - intros pre v post e -> Hpre Hv.
    now apply (walkLoop_abort (files w)).
  - intros v p e Hs He. unfold fatal, contribution. rewrite Hs, He.
    destruct v as [q isDir|]; [|discriminate].
    split; intros ->; auto.
Qed.

(** The scan of the sample export collects the channels of its first and
    third file and passes over the second; the scan of the broken export
    stops at the empty file. *)
Lemma Channels_scans_when_no_snapshot_witness :
  snd (@Directory_Channels sampleConsts sampleExternals {| dir := "exp" |}
         scanWorld)
    = Ok [{| chan_ID := "A"; chan_Name := "" |};
          {| chan_ID := "C"; chan_Name := "" |}] /\
  snd (@Directory_Channels sampleConsts sampleExternals {| dir := "exp" |}
         brokenWorld)
    = Err (New "chunk file is empty").
Proof.
  split.
  - assert (Hp : files scanWorld
       !! @Directory_filename sampleExternals {| dir := "exp" |} "channels" = None
       \/ files scanWorld
       !! @Directory_filename sampleExternals {| dir := "exp" |} "channels" = Some Dir)
      by (left; vm_compute; reflexivity).
    destruct (@Channels_scans_when_no_snapshot sampleConsts sampleExternals
                {| dir := "exp" |} scanWorld Hp) as (Hok & _).
    rewrite Hok; [vm_compute; reflexivity|].
    apply (bool_decide_unpack _). vm_compute. exact I.
  - assert (Hp : files brokenWorld
       !! @Directory_filename sampleExternals {| dir := "exp" |} "channels" = None
       \/ files brokenWorld
       !! @Directory_filename sampleExternals {| dir := "exp" |} "channels" = Some Dir)
      by (left; vm_compute; reflexivity).
    destruct (@Channels_scans_when_no_snapshot sampleConsts sampleExternals
                {| dir := "exp" |} brokenWorld Hp) as (_ & Habort & _).
    apply (Habort [VisitEntry "exp" true; VisitEntry "exp/a.json.gz" false]
             (VisitEntry "exp/b.json.gz" false)
             [VisitEntry "exp/c.json.gz" false]).
    + vm_compute. reflexivity.
    + apply (bool_decide_unpack _). vm_compute. exact I.
    + vm_compute. reflexivity.
Defined.

(** ** [Directory.Create] *)

Section CreateFacts.
Context `{ChunkConsts} `{Externals}.

Lemma Create_on_dir (d : Directory) (name : string) (w : World) :
  files w !! Directory_filename d name = Some Dir ->
  Directory_Create d name w =
    (log (EvStat (Directory_filename d name)) w,
     Err (New ("not a file: " +:+ Directory_filename d name))).
Proof.
  intros Hp. unfold Directory_Create, bind, try, os_Stat, emit. cbn.
  rewrite Hp. reflexivity.
Qed.

Lemma Create_on_nonempty (d : Directory) (name : string) (w : World)
    (data : bytes) :
  files w !! Directory_filename d name = Some (Regular data) -> data <> [] ->
  Directory_Create d name w =
    (log (EvStat (Directory_filename d name)) w,
     Err (New ("file " +:+ Directory_filename d name
               +:+ " exists and not empty"))).
Proof.
  intros Hp Hd. destruct data as [|b data]; [congruence|].
  assert (Hsz : (0 <? Z.of_nat (S (length data))) = true)
    by (apply Z.ltb_lt; lia).
  unfold Directory_Create, bind, try, os_Stat, emit. cbn.
  rewrite Hp. cbn. rewrite Hsz. reflexivity.
Qed.

Lemma Create_on_empty (d : Directory) (name : string) (w : World) :
  files w !! Directory_filename d name = Some (Regular []) ->
  Directory_Create d name w =
    (created (Directory_filename d name) (files w) w,
     Ok {| WriteCloser := gzipWriteCloser (S (nextid w));
           underlying := fileCloser (nextid w) |}).
Proof.
  intros Hp.
  unfold Directory_Create, bind, try, os_Stat, emit. cbn. rewrite Hp. cbn.
  change (0 <? Z.of_nat 0) with false. cbn.
  unfold os_OpenFile_create_wronly, bind, emit. cbn. rewrite Hp.
  reflexivity.
Qed.

Lemma Create_on_absent (d : Directory) (name : string) (w : World) :
  files w !! Directory_filename d name = None ->
  Directory_Create d name w =
    (created (Directory_filename d name)
       (<[Directory_filename d name := Regular []]> (files w)) w,
     Ok {| WriteCloser := gzipWriteCloser (S (nextid w));
           underlying := fileCloser (nextid w) |}).
Proof.
  intros Hp.
  unfold Directory_Create, bind, try, os_Stat, emit. cbn. rewrite Hp. cbn.
  unfold os_OpenFile_create_wronly, bind, emit. cbn. rewrite Hp.
  reflexivity.
Qed.

End CreateFacts.

(** C5: [Create] fails when its path holds a folder or a regular file
    that is not empty; the failing call leaves the namespace, the open
    descriptors and the gzip writers as they were, so the existing file
    keeps its contents.  This is the situation of a second [Create] after
    a first one whose writer was closed. *)
Theorem Create_refuses_existing `{Externals}
    (d : Directory) (name : string) (w : World) (n : inode) :
  files w !! Directory_filename d name = Some n ->
  n <> Regular [] ->
  exists w',
    Directory_Create d name w =
      (w', Err (match n with
                | Dir => New ("not a file: " +:+ Directory_filename d name)
                | Regular _ =>
                    New ("file " +:+ Directory_filename d name
                         +:+ " exists and not empty")
                end)) /\
    files w' = files w /\ fds w' = fds w /\ gzs w' = gzs w.
Proof.
  intros Hp Hn. exists (log (EvStat (Directory_filename d name)) w).
  destruct n as [data|].
  - rewrite (Create_on_nonempty d name w data Hp); [auto|congruence].
  - rewrite (Create_on_dir d name w Hp). auto.
Qed.

(** A first [Create] in a fresh folder, one chunk written, the writer
    closed; the second [Create] of the same name fails and the file is
    what the first left. *)
Lemma Create_refuses_existing_witness :
  files writtenWorld !! "exp/a.json.gz"
    = Some (Regular (sample_gzip [Byte.x03; Byte.x41])) /\
  exists w2,
    @Directory_Create sampleExternals {| dir := "exp" |} "a" writtenWorld =
      (w2, Err (New "file exp/a.json.gz exists and not empty")) /\
    files w2 = files writtenWorld.
Proof.
  assert (Hp : files writtenWorld
                 !! @Directory_filename sampleExternals {| dir := "exp" |} "a"
               = Some (Regular (sample_gzip [Byte.x03; Byte.x41])))
    by (vm_compute; reflexivity).
  split; [exact Hp|].
  destruct (@Create_refuses_existing sampleExternals {| dir := "exp" |} "a"
              writtenWorld _ Hp)
    as (w2 & Hc & Hf & _); [discriminate|].
  exists w2. split; [exact Hc|exact Hf].
Defined.

(** C9: on a regular file of length zero [Create] does not fail: it
    leaves the namespace as it is and returns a writer whose descriptor
    is open on that file at offset 0.  [Create] fails exactly when its
    path holds a folder or a regular file that is not empty. *)
Theorem Create_reopens_empty `{Externals}
    (d : Directory) (name : string) (w : World) :
  files w !! Directory_filename d name = Some (Regular []) ->
  (exists w' cw,
     Directory_Create d name w = (w', Ok cw) /\
     files w' = files w /\
     fds w' !! nextid w =
       Some {| of_path := Directory_filename d name; of_off := 0%nat |} /\
     underlying cw = fileCloser (nextid w) /\
     WriteCloser cw = gzipWriteCloser (S (nextid w)) /\
     trace w' = trace w ++ [EvStat (Directory_filename d name);
                            EvOpenFile (Directory_filename d name)]) /\
  (forall w0 : World,
     isErr (snd (Directory_Create d name w0)) = true <->
     exists n, files w0 !! Directory_filename d name = Some n /\
               n <> Regular []).
Proof.
  intros Hp. split.
  - rewrite (Create_on_empty d name w Hp). do 2 eexists.
    split; [reflexivity|]. cbn. rewrite lookup_insert_eq.
    rewrite <- app_assoc. auto 10.
  - intros w0.
    destruct (files w0 !! Directory_filename d name) as [[[|b data]|]|] eqn:Hp0.
    + rewrite (Create_on_empty d name w0 Hp0). cbn. split; [discriminate|].
      intros (n & Hn & Hne). congruence.
    + rewrite (Create_on_nonempty d name w0 (b :: data) Hp0); [|discriminate].
      cbn. split; [|reflexivity]. intros _. eexists. split; [reflexivity|].
      discriminate.
    + rewrite (Create_on_dir d name w0 Hp0). cbn. split; [|reflexivity].
      intros _. eexists. split; [reflexivity|]. discriminate.
    + rewrite (Create_on_absent d name w0 Hp0). cbn. split; [discriminate|].
      intros (n & Hn & _). discriminate.
Qed.

(** An empty users file is taken over by [Create]. *)
Lemma Create_reopens_empty_witness :
  files touchedWorld !! "exp/users.json.gz" = Some (Regular []) /\
  exists w' cw,
    @Directory_Create sampleExternals {| dir := "exp" |} "users" touchedWorld
      = (w', Ok cw) /\
    files w' = files touchedWorld.
Proof.
  assert (Hp : files touchedWorld
                 !! @Directory_filename sampleExternals {| dir := "exp" |} "users"
               = Some (Regular [])) by (vm_compute; reflexivity).
  split; [exact Hp|].
  destruct (@Create_reopens_empty sampleExternals
              {| dir := "exp" |} "users" touchedWorld Hp)
    as ((w' & cw & Hc & Hf & _) & _).
  exists w', cw. split; [exact Hc|exact Hf].
Defined.

(** ** [closewrapper.Close] *)

(** [Close] runs the close of the compression layer; only when that
    returns nil does it go on to the close of the file. *)
Lemma closewrapper_Close_unfold (c : closewrapper) (w : World) :
  closewrapper_Close c w =
    match WriteCloser_Close (WriteCloser c) w with
    | (w1, Ok _) => Close (underlying c) w1
    | (w1, Err e) => (w1, Err e)
    end.
Proof. reflexivity. Qed.

(** On a disk with room the compression layer is closed first, its
    output is written, and then the file is closed. *)
Example closewrapper_Close_order :
  snd closeOnGoodDisk = Ok tt /\
  fds (fst closeOnGoodDisk) !! 3%nat = None /\
  trace (fst closeOnGoodDisk) =
    [EvStat "exp/a.json.gz"; EvOpenFile "exp/a.json.gz"; EvGzipClose 4;
     EvWrite "exp/a.json.gz"; EvClose "exp/a.json.gz"].
Proof. vm_compute. auto. Qed.

(** C4 (the code departs from it): when the close of the compression
    layer fails, [Close] returns that error at once; the file is never
    closed and its descriptor stays open. *)
Theorem closewrapper_Close_leaks_on_failure :
  snd closeOnFullDisk = Err (PathError "write" "exp/a.json.gz" ENOSPC) /\
  fds (fst closeOnFullDisk) !! 3%nat =
    Some {| of_path := "exp/a.json.gz"; of_off := 0%nat |} /\
  trace (fst closeOnFullDisk) =
    [EvStat "exp/a.json.gz"; EvOpenFile "exp/a.json.gz"; EvGzipClose 4;
     EvWrite "exp/a.json.gz"].
Proof. vm_compute. auto. Qed.

(** ** Writing a chunk file and reading it back *)

Section RoundTrip.
Context `{ChunkConsts} `{Externals}.


Lemma overwrite_empty (data : bytes) : overwrite [] 0 data = data.
Proof.
  unfold overwrite. rewrite take_nil, drop_nil. cbn. apply app_nil_r.
Qed.






End RoundTrip.



(** ** [Directory.OpenRAW] and [Directory.Open] *)

(** C10: [OpenRAW] opens the file name it is given, joined with nothing
    and so only cleaned; the folder of the receiver plays no part, and two
    directories give the same result for the same name.  [Open] opens
    the path made of the receiver's folder and the name followed by
    [.json.gz]. *)
Theorem OpenRAW_ignores_directory `{ChunkConsts} `{Externals}
    (d1 d2 : Directory) (raw name : string) (w : World) :
  Directory_OpenRAW d1 raw w = Directory_OpenRAW d2 raw w /\
  Directory_OpenRAW d1 raw w = openChunks (filepath_Join [raw]) w /\
  filepath_Join [raw] = (if bool_decide (raw = "") then "" else Clean raw) /\
  readsOnly (Directory_OpenRAW d1 raw) w
    (mapResult osext_RemoveOnClose
       (chunkFileContents (files w) (filepath_Join [raw])))
    (openEvents (filepath_Join [raw])) /\
  readsOnly (Directory_Open d1 name) w
    (fileAt (files w) (filepath_Join [Directory_filename d1 name]))
    (openEvents (filepath_Join [Directory_filename d1 name])) /\
  Directory_filename d1 name = filepath_Join [dir d1; name +:+ ".json.gz"] /\
  (dir d1 <> "" ->
   Directory_filename d1 name = Clean (dir d1 +:+ "/" +:+ name +:+ ".json.gz")).
Proof.
  split; [reflexivity|]. split; [reflexivity|]. split.
  { unfold filepath_Join. destruct (bool_decide (raw = "")); reflexivity. }
  split; [apply OpenRAW_reads|]. split; [apply Open_reads|].
  split; [reflexivity|].
  intros Hd. unfold Directory_filename, filepath_Join.
  rewrite bool_decide_eq_false_2 by exact Hd. reflexivity.
Qed.

(** In the sample export the file [a.json.gz] is found by [Open] under
    the folder, and not by [OpenRAW] given the bare file name. *)
Example OpenRAW_bare_name :
  snd (@Directory_OpenRAW sampleExternals {| dir := "exp" |} "a.json.gz" scanWorld)
    = Err (PathError "stat" "a.json.gz" ENOENT) /\
  isErr (snd (@Directory_Open sampleConsts sampleExternals {| dir := "exp" |}
                "a" scanWorld)) = false /\
  trace (fst (@Directory_Open sampleConsts sampleExternals {| dir := "exp" |}
                "a" scanWorld))
    = [EvStat "exp/a.json.gz"; EvOpen "exp/a.json.gz"; EvClose "exp/a.json.gz"].
Proof. vm_compute. auto. Qed.

Section SnapshotReads.
Context `{ChunkConsts} `{Externals}.

Lemma Channels_prefers_snapshot_reads (d : Directory) (w : World)
    (data : bytes) :
  files w !! Directory_filename d "channels" = Some (Regular data) ->
  readsOnly (Directory_Channels d) w
    (channelsJSONAt (files w) (Directory_filename d "channels"))
    (openEvents (Directory_filename d "channels")).
Proof.
  intros Hp. unfold readsOnly.
  rewrite (Channels_snapshot_step d w data Hp).
  destruct (loadChannelsJSON_reads (Directory_filename d "channels")
              (log (EvStat (Directory_filename d "channels")) w))
    as (w' & evs & Hm & Hf & Hwf & Ht & Hev).
  exists w', (EvStat (Directory_filename d "channels") :: evs).
  cbn in Hm, Hf, Hwf, Ht. rewrite <- app_assoc in Ht.
  repeat split; auto.
  intros e [->|He]%elem_of_cons; [left|auto].
Qed.

End SnapshotReads.

(** ** Reading releases what it opens *)

Section Quiet.
Context `{ChunkConsts} `{Externals}.

Lemma quiet_ret {A} (a : A) : quiet (ret a).
Proof. intros w Hw. cbn. auto. Qed.

Lemma quiet_fail {A} (e : error) : quiet (@fail A e).
Proof. intros w Hw. cbn. auto. Qed.

Lemma quiet_lift {A} (r : result A) : quiet (lift r).
Proof. intros w Hw. cbn. auto. Qed.


Lemma quiet_bind {A B} (m : M A) (k : A -> M B) :
  quiet m -> (forall a, quiet (k a)) -> quiet (bind m k).
Proof.
  intros Hm Hk w Hw. destruct (Hm w Hw) as (Hf & Hd & Hwf & Hfr).
  unfold bind. destruct (m w) as [w1 [a|e]]; cbn in *; [|auto].
  destruct (Hk a w1 Hfr) as (Hf' & Hd' & Hwf' & Hfr').
  repeat split; [congruence..|exact Hfr'].
Qed.















End Quiet.


Section ScanTrace.
Context `{ChunkConsts} `{Externals}.

Lemma channelsWalkFn_trace (v : visit) (ch : list SlackChannel) (w : World) :
  exists evs,
    trace (fst (channelsWalkFn v ch w)) = trace w ++ evs /\
    evs ⊆ match scanned v with Some p => openEvents p | None => [] end.
Proof.
  destruct v as [p isDir|p dd e];
    [|exists []; cbn; rewrite app_nil_r; auto].
  unfold scanned, channelsWalkFn.
  destruct isDir.
  { exists []. destruct (HasSuffix p ext); cbn; rewrite app_nil_r; auto. }
  destruct (HasSuffix p ext); cbn;
    [|exists []; cbn; rewrite app_nil_r; auto].
  destruct (loadChanInfo_reads p w) as (w' & evs & Hm & _ & _ & Ht & Hev).
  exists evs. split; [|exact Hev]. unfold bind, try. rewrite Hm.
  destruct (chanInfoAt (files w) p) as [chs|e]; [exact Ht|].
  destruct (errors_Is e errNoChannelInfo); exact Ht.
Qed.

Lemma walkLoop_trace (vs : list visit) :
  forall (ch : list SlackChannel) (w : World),
  exists evs,
    trace (fst (walkLoop channelsWalkFn vs ch w)) = trace w ++ evs /\
    evs ⊆ scanEvents vs.
Proof.
  induction vs as [|v vs IH]; intros ch w.
  - exists []. cbn. rewrite app_nil_r. auto.
  - destruct (channelsWalkFn_trace v ch w) as (evs1 & Ht1 & Hev1).
    cbn [walkLoop]. unfold bind.
    destruct (channelsWalkFn v ch w) as [w1 [ch1|e]]; cbn in Ht1.
    + destruct (IH ch1 w1) as (evs2 & Ht2 & Hev2).
      exists (evs1 ++ evs2). rewrite Ht2, Ht1, app_assoc. split; [reflexivity|].
      unfold scanEvents. cbn [map concat].
      intros e [He|He]%elem_of_app; apply elem_of_app; auto.
    + exists evs1. split; [exact Ht1|].
      unfold scanEvents. cbn [map concat].
      intros e0 He. apply elem_of_app. auto.
Qed.

Lemma scanEvents_open (vs : list visit) (p : string) :
  EvOpen p ∈ scanEvents vs ->
  VisitEntry p false ∈ vs /\ HasSuffix p ext = true.
Proof.
  unfold scanEvents. induction vs as [|v vs IH]; cbn [map concat].
  - intros Hin. inversion Hin.
  - intros [Hin|Hin]%elem_of_app.
    + unfold scanned in Hin. destruct v as [q isDir|]; [|inversion Hin].
      destruct isDir; [inversion Hin|].
      destruct (HasSuffix q ext) eqn:Hs; [|inversion Hin].
      unfold openEvents in Hin.
      repeat (apply elem_of_cons in Hin; destruct Hin as [Hin|Hin];
              [try discriminate|]); [|inversion Hin].
      injection Hin as ->. split; [left|exact Hs].
    + destruct (IH Hin) as [Hv Hs]. split; [right; exact Hv|exact Hs].
Qed.

End ScanTrace.

(** X2: [Channels] opens nothing but the snapshot or, during the scan,
    entries of the walk that are no folders and whose path ends in
    [.json.gz]: any other file of the directory stays unopened. *)
Theorem Channels_opens_only_chunk_files `{ChunkConsts} `{Externals}
    (d : Directory) (w : World) (p : string) :
  EvOpen p ∈ trace (fst (Directory_Channels d w)) ->
  EvOpen p ∈ trace w \/
  p = Directory_filename d "channels" \/
  (VisitEntry p false ∈ walkVisits (files w) (dir d) /\
   HasSuffix p ext = true).
Proof.
  intros Hin.
  destruct (files w !! Directory_filename d "channels") as [[data|]|] eqn:Hp.
  - destruct (Channels_prefers_snapshot_reads d w data Hp)
      as (w' & evs & Hm & _ & _ & Ht & Hev).
    rewrite Hm in Hin. cbn in Hin. rewrite Ht in Hin.
    apply elem_of_app in Hin as [Hin|Hin]; [auto|].
    apply Hev in Hin. unfold openEvents in Hin.
    repeat (apply elem_of_cons in Hin; destruct Hin as [Hin|Hin];
            [try discriminate|]); [|inversion Hin].
    injection Hin as ->. auto.
  - rewrite (Channels_scan_step d w) in Hin by auto.
    destruct (walkLoop_trace (walkVisits (files w) (dir d)) []
                (log (EvWalkDir (dir d))
                   (log (EvStat (Directory_filename d "channels")) w)))
      as (evs & Ht & Hev).
    rewrite Ht in Hin. cbn in Hin.
    rewrite !elem_of_app in Hin. destruct Hin as [[[Hin|Hin]|Hin]|Hin]; auto.
    + apply list_elem_of_singleton in Hin. discriminate.
    + apply list_elem_of_singleton in Hin. discriminate.
    + right. right. apply scanEvents_open. auto.
  - rewrite (Channels_scan_step d w) in Hin by auto.
    destruct (walkLoop_trace (walkVisits (files w) (dir d)) []
                (log (EvWalkDir (dir d))
                   (log (EvStat (Directory_filename d "channels")) w)))
      as (evs & Ht & Hev).
    rewrite Ht in Hin. cbn in Hin.
    rewrite !elem_of_app in Hin. destruct Hin as [[[Hin|Hin]|Hin]|Hin]; auto.
    + apply list_elem_of_singleton in Hin. discriminate.
    + apply list_elem_of_singleton in Hin. discriminate.
    + right. right. apply scanEvents_open. auto.
Qed.

(** X3: [Users] consults the users file and nothing else: its result is
    determined by what lies at that one path, there is no scan to fall
    back on, and the namespace is left alone. *)
Theorem Users_reads_only_users_file `{ChunkConsts} `{Externals}
    (d : Directory) (w : World) :
  readsOnly (Directory_Users d) w
    (usersAt (files w) (Directory_filename d "users"))
    (openEvents (Directory_filename d "users")) /\
  (forall w2 : World,
     files w2 !! Directory_filename d "users"
       = files w !! Directory_filename d "users" ->
     snd (Directory_Users d w2) = snd (Directory_Users d w)).
Proof.
  split; [apply Users_reads|]. intros w2 Heq.
  rewrite (readsOnly_result _ _ _ _ (Users_reads d w2)).
  rewrite (readsOnly_result _ _ _ _ (Users_reads d w)).
  unfold usersAt, fileAt, chunkFileContents. now rewrite Heq.
Qed.

(** X4: [OpenDir] succeeds exactly on a path that holds a folder; the
    directory it returns keeps the path as given.  A missing path gives
    the error of [os.Stat], a regular file gives "not a directory".  The
    namespace is only read. *)
Theorem OpenDir_only_folders (p : string) (w : World) :
  (isErr (snd (OpenDir p w)) = false <-> files w !! p = Some Dir) /\
  (files w !! p = Some Dir -> snd (OpenDir p w) = Ok {| dir := p |}) /\
  (forall data, files w !! p = Some (Regular data) ->
     snd (OpenDir p w) = Err (New ("not a directory: " +:+ p))) /\
  (files w !! p = None -> snd (OpenDir p w) = Err (PathError "stat" p ENOENT)) /\
  files (fst (OpenDir p w)) = files w /\
  trace (fst (OpenDir p w)) = trace w ++ [EvStat p].
Proof.
  unfold OpenDir, bind, os_Stat, emit. cbn.
  destruct (files w !! p) as [[data|]|]; cbn;
    repeat split; try discriminate; try reflexivity; try congruence.
Qed.

Section WriterFacts.
Context `{ChunkConsts} `{Externals}.

Lemma writeChunks_gzip_quiet (z : nat) (cs : list Chunk) :
  forall (w : World) (sink : nat) (pending : bytes),
  gzs w !! z = Some {| gz_sink := sink; gz_pending := pending;
                       gz_closed := false; gz_err := None |} ->
  exists w',
    writeChunks (gzipWriteCloser z) cs w = (w', Ok tt) /\
    files w' = files w /\ fds w' = fds w /\ wfault w' = wfault w /\
    trace w' = trace w /\ nextid w' = nextid w /\
    gzs w' !! z = Some {| gz_sink := sink;
                          gz_pending := pending ++ encodeChunks cs;
                          gz_closed := false; gz_err := None |}.
Proof.
  induction cs as [|c cs IH]; intros w sink pending Hz.
  - exists w. cbn. rewrite app_nil_r. auto 10.
  - cbn [writeChunks]. unfold bind. cbn [Write gzipWriteCloser].
    unfold gzip_Writer_Write at 1. rewrite Hz. cbn.
    edestruct (IH (setGzs (<[z := {| gz_sink := sink;
                                     gz_pending := pending ++ json_encode_chunk c;
                                     gz_closed := false; gz_err := None |}]>
                             (gzs w)) w))
      as (w' & Hrun & Hf & Hd & Hwf & Ht & Hn & Hg).
    { cbn. apply lookup_insert_eq. }
    exists w'. rewrite Hrun. cbn in Hf, Hd, Hwf, Ht, Hn.
    unfold encodeChunks in *. cbn [map concat]. rewrite app_assoc.
    auto 10.
Qed.

(** The world after the writer of a fresh [Create] was written to and
    closed. *)
Lemma close_after_created (p : string) (fs : gmap string inode) (w : World)
    (cs : list Chunk) :
  fs !! p = Some (Regular []) -> wfault w = None ->
  exists w',
    (writeChunks (gzipWriteCloser (S (nextid w))) cs ;;
     closewrapper_Close {| WriteCloser := gzipWriteCloser (S (nextid w));
                           underlying := fileCloser (nextid w) |})
      (created p fs w) = (w', Ok tt) /\
    files w' = <[p := Regular (gzip_compress (encodeChunks cs))]> fs /\
    wfault w' = None /\
    fds w' = delete (nextid w) (fds w) /\
    nextid w' = S (S (nextid w)) /\
    gzs w' !! S (nextid w) =
      Some {| gz_sink := nextid w; gz_pending := encodeChunks cs;
              gz_closed := true; gz_err := None |} /\
    trace w' = trace w ++ [EvStat p; EvOpenFile p; EvGzipClose (S (nextid w));
                           EvWrite p; EvClose p].
Proof.
  intros Hp Hwf.
  destruct (writeChunks_gzip_quiet (S (nextid w)) cs (created p fs w)
              (nextid w) [])
    as (w2 & Hrun & Hf & Hd & Hwf2 & Ht & Hn & Hg).
  { cbn. apply lookup_insert_eq. }
  unfold bind at 1. rewrite Hrun. clear Hrun.
  destruct w2 as [f2 d2 g2 n2 wf2 t2]. cbn in Hf, Hd, Hwf2, Ht, Hn, Hg.
  subst f2 d2 wf2 t2 n2.
  unfold closewrapper_Close, bind. cbn [WriteCloser WriteCloser_Close
    gzipWriteCloser underlying Close fileCloser].
  unfold gzip_Writer_Close. cbn [gzs]. rewrite Hg. cbn.
  unfold os_File_Write. cbn. rewrite lookup_insert_eq. cbn.
  rewrite Hwf, Hp. cbn.
  unfold os_File_Close. cbn. rewrite lookup_insert_eq. cbn.
  eexists. split; [reflexivity|]. cbn.
  rewrite overwrite_empty, lookup_insert_eq, !delete_insert_eq.
  rewrite <- !app_assoc. cbn. auto 10.
Qed.

End WriterFacts.

Section WriterPrograms.
Context `{ChunkConsts} `{Externals}.

Lemma bind_assoc_at {A B C} (m : M A) (k : A -> M B) (h : B -> M C)
    (w : World) :
  bind (bind m k) h w = bind m (fun a => bind (k a) h) w.
Proof.
  unfold bind. destruct (m w) as [w1 [a|e]]; reflexivity.
Qed.

(** [writeFile] on a path that is free or holds an empty file. *)
Lemma writeFile_full (d : Directory) (name : string) (cs : list Chunk)
    (w : World) :
  files w !! Directory_filename d name = None \/
  files w !! Directory_filename d name = Some (Regular []) ->
  wfault w = None ->
  exists w',
    writeFile d name cs w = (w', Ok tt) /\
    files w' = <[Directory_filename d name :=
                   Regular (gzip_compress (encodeChunks cs))]> (files w) /\
    wfault w' = None /\
    fds w' = delete (nextid w) (fds w) /\
    nextid w' = S (S (nextid w)) /\
    gzs w' !! S (nextid w) =
      Some {| gz_sink := nextid w; gz_pending := encodeChunks cs;
              gz_closed := true; gz_err := None |} /\
    trace w' = trace w ++
      [EvStat (Directory_filename d name);
       EvOpenFile (Directory_filename d name);
       EvGzipClose (S (nextid w));
       EvWrite (Directory_filename d name);
       EvClose (Directory_filename d name)].
Proof.
  intros [Hp|Hp] Hwf; unfold writeFile; unfold bind at 1.
  - rewrite (Create_on_absent d name w Hp).
    destruct (close_after_created (Directory_filename d name)
                (<[Directory_filename d name := Regular []]> (files w)) w cs)
      as (w' & Hrun & Hf & Hrest); [apply lookup_insert_eq|exact Hwf|].
    exists w'. split; [exact Hrun|]. split; [|exact Hrest].
    rewrite Hf. apply insert_insert_eq.
  - rewrite (Create_on_empty d name w Hp).
    destruct (close_after_created (Directory_filename d name) (files w) w cs)
      as (w' & Hrun & Hrest); [exact Hp|exact Hwf|].
    exists w'. auto.
Qed.

End WriterPrograms.

(** X5: when nothing fails, a writer that is written to and closed closes
    the compression layer before the file, the close of the file is the
    last thing that happens, and no descriptor is left open. *)
Theorem writeFile_closes_in_order `{Externals}
    (d : Directory) (name : string) (cs : list Chunk) (w : World) :
  files w !! Directory_filename d name = None \/
  files w !! Directory_filename d name = Some (Regular []) ->
  wfault w = None ->
  fdsFresh w ->
  exists w' evs,
    writeFile d name cs w = (w', Ok tt) /\
    fds w' = fds w /\
    trace w' = trace w ++ evs ++ [EvClose (Directory_filename d name)] /\
    EvGzipClose (S (nextid w)) ∈ evs /\
    EvClose (Directory_filename d name) ∉ evs.
Proof.
  intros Hfresh Hwf Hfds.
  destruct (writeFile_full d name cs w Hfresh Hwf)
    as (w' & Hrun & _ & _ & Hd & _ & _ & Ht).
  exists w', [EvStat (Directory_filename d name);
              EvOpenFile (Directory_filename d name);
              EvGzipClose (S (nextid w));
              EvWrite (Directory_filename d name)].
  split; [exact Hrun|]. split.
  { rewrite Hd. apply delete_id, Hfds. lia. }
  split; [exact Ht|]. split.
  - do 2 right. left.
  - intros Hin.
    repeat (apply elem_of_cons in Hin; destruct Hin as [Hin|Hin];
            [discriminate|]).
    inversion Hin.
Qed.

(** The file [a] of the fresh folder, written and closed. *)
Lemma writeFile_closes_in_order_witness :
  exists w' evs,
    @writeFile sampleExternals {| dir := "exp" |} "a"
      [testChunk 3 false "A" None] freshWorld = (w', Ok tt) /\
    fds w' = fds freshWorld /\
    trace w' = trace freshWorld ++ evs ++ [EvClose "exp/a.json.gz"].
Proof.
  destruct (@writeFile_closes_in_order sampleExternals
              {| dir := "exp" |} "a" [testChunk 3 false "A" None] freshWorld)
    as (w' & evs & Hrun & Hd & Ht & _).
  - left. vm_compute. reflexivity.
  - reflexivity.
  - intros n Hn. reflexivity.
  - exists w', evs. auto.
Defined.

(** X6: once a file was written and its writer closed, [Create] of the
    same name fails with "exists and not empty" and the file keeps what
    was written (gzip output is never empty). *)
Theorem Create_after_write_fails `{Externals}
    (d : Directory) (name : string) (cs : list Chunk) (w : World) :
  files w !! Directory_filename d name = None \/
  files w !! Directory_filename d name = Some (Regular []) ->
  wfault w = None ->
  gzip_compress (encodeChunks cs) <> [] ->
  exists w',
    writeThenCreate d name cs w =
      (w', Err (New ("file " +:+ Directory_filename d name
                     +:+ " exists and not empty"))) /\
    files w' !! Directory_filename d name =
      Some (Regular (gzip_compress (encodeChunks cs))).
Proof.
  intros Hfresh Hwf Hne.
  destruct (writeFile_full d name cs w Hfresh Hwf) as (w1 & Hrun & Hf & _).
  assert (Hat : files w1 !! Directory_filename d name =
                Some (Regular (gzip_compress (encodeChunks cs))))
    by (rewrite Hf; apply lookup_insert_eq).
  exists (log (EvStat (Directory_filename d name)) w1).
  unfold writeThenCreate, bind. rewrite Hrun.
  rewrite (Create_on_nonempty d name w1 _ Hat Hne). split; [reflexivity|].
  exact Hat.
Qed.

(** A writer closed without a single write, then a second [Create]. *)
Lemma Create_after_write_fails_witness :
  exists w',
    @writeThenCreate sampleExternals {| dir := "exp" |} "a" [] freshWorld =
      (w', Err (New "file exp/a.json.gz exists and not empty")) /\
    files w' !! "exp/a.json.gz" = Some (Regular (sample_gzip [])).
Proof.
  destruct (@Create_after_write_fails sampleExternals
              {| dir := "exp" |} "a" [] freshWorld)
    as (w' & Hrun & Hat).
  - left. vm_compute. reflexivity.
  - reflexivity.
  - discriminate.
  - exists w'. split; [exact Hrun|exact Hat].
Defined.

(** X7: [Create] called twice on the same name before anything is written
    succeeds both times: the first call leaves an empty file, which the
    guard of the second lets through, and the caller holds two writers
    with two descriptors on the one file. *)
Theorem Create_twice_before_writing `{Externals}
    (d : Directory) (name : string) (w : World) :
  files w !! Directory_filename d name = None \/
  files w !! Directory_filename d name = Some (Regular []) ->
  exists w' cw1 cw2,
    createTwice d name w = (w', Ok (cw1, cw2)) /\
    files w' !! Directory_filename d name = Some (Regular []) /\
    underlying cw1 = fileCloser (nextid w) /\
    underlying cw2 = fileCloser (S (S (nextid w))) /\
    fds w' !! nextid w =
      Some {| of_path := Directory_filename d name; of_off := 0%nat |} /\
    fds w' !! S (S (nextid w)) =
      Some {| of_path := Directory_filename d name; of_off := 0%nat |}.
Proof.
  intros Hfresh. unfold createTwice. unfold bind at 1.
  assert (Hfirst : exists fs,
    Directory_Create d name w =
      (created (Directory_filename d name) fs w,
       Ok {| WriteCloser := gzipWriteCloser (S (nextid w));
             underlying := fileCloser (nextid w) |}) /\
    fs !! Directory_filename d name = Some (Regular [])).
  { destruct Hfresh as [Hp|Hp].
    - eexists. split; [apply (Create_on_absent d name w Hp)|].
      apply lookup_insert_eq.
    - eexists. split; [apply (Create_on_empty d name w Hp)|exact Hp]. }
  destruct Hfirst as (fs & -> & Hfs).
  unfold bind.
  rewrite (Create_on_empty d name (created (Directory_filename d name) fs w))
    by exact Hfs.
  do 3 eexists. split; [reflexivity|]. cbn.
  rewrite lookup_insert_eq.
  rewrite lookup_insert_ne by lia. rewrite lookup_insert_eq. auto 10.
Qed.

(** Two writers on the file [a] of the fresh folder. *)
Lemma Create_twice_before_writing_witness :
  exists w' cw1 cw2,
    @createTwice sampleExternals {| dir := "exp" |} "a" freshWorld
      = (w', Ok (cw1, cw2)) /\
    files w' !! "exp/a.json.gz" = Some (Regular []).
Proof.
  destruct (@Create_twice_before_writing sampleExternals
              {| dir := "exp" |} "a" freshWorld)
    as (w' & cw1 & cw2 & Hrun & Hat & _).
  - left. vm_compute. reflexivity.
  - exists w', cw1, cw2. split; [exact Hrun|exact Hat].
Defined.

(** X8: closing a writer a second time fails: the compression layer is
    already closed and says nothing, the file is closed already and
    reports an error that matches [os.ErrClosed]; the file keeps what the
    first close wrote. *)
Theorem Close_twice_reports_closed `{Externals}
    (d : Directory) (name : string) (cs : list Chunk) (w : World) :
  files w !! Directory_filename d name = None \/
  files w !! Directory_filename d name = Some (Regular []) ->
  wfault w = None ->
  exists w' e,
    closeTwice d name cs w = (w', Err e) /\
    errors_Is e ErrClosed = true /\
    files w' !! Directory_filename d name =
      Some (Regular (gzip_compress (encodeChunks cs))).
Proof.
  intros Hfresh Hwf. unfold closeTwice. unfold bind at 1.
  assert (Hfirst : exists fs,
    Directory_Create d name w =
      (created (Directory_filename d name) fs w,
       Ok {| WriteCloser := gzipWriteCloser (S (nextid w));
             underlying := fileCloser (nextid w) |}) /\
    fs !! Directory_filename d name = Some (Regular [])).
  { destruct Hfresh as [Hp|Hp].
    - eexists. split; [apply (Create_on_absent d name w Hp)|].
      apply lookup_insert_eq.
    - eexists. split; [apply (Create_on_empty d name w Hp)|exact Hp]. }
  destruct Hfirst as (fs & -> & Hfs).
  cbn [WriteCloser].
  destruct (close_after_created (Directory_filename d name) fs w cs Hfs Hwf)
    as (w1 & Hrun & Hf & _ & Hd & _ & Hg & _).
  rewrite <- (bind_assoc_at
    (writeChunks (gzipWriteCloser (S (nextid w))) cs)
    (fun _ => closewrapper_Close _) (fun _ => closewrapper_Close _)).
  unfold bind at 1. rewrite Hrun.
  unfold closewrapper_Close, bind. cbn [WriteCloser WriteCloser_Close
    gzipWriteCloser underlying Close fileCloser].
  unfold gzip_Writer_Close. rewrite Hg. cbn.
  unfold os_File_Close. rewrite Hd, lookup_delete_eq.
  exists w1, ErrClosed. split; [reflexivity|]. split; [reflexivity|].
  rewrite Hf. apply lookup_insert_eq.
Qed.

(** The file [a] of the fresh folder, its writer closed twice. *)
Lemma Close_twice_reports_closed_witness :
  exists w' e,
    @closeTwice sampleExternals {| dir := "exp" |} "a" [] freshWorld
      = (w', Err e) /\
    errors_Is e ErrClosed = true.
Proof.
  destruct (@Close_twice_reports_closed sampleExternals
              {| dir := "exp" |} "a" [] freshWorld)
    as (w' & e & Hrun & He & _).
  - left. vm_compute. reflexivity.
  - reflexivity.
  - exists w', e. split; [exact Hrun|exact He].
Defined.

Section FailedClose.
Context `{Externals}.

Lemma os_File_Write_fails_fds (fd : nat) (p : bytes) (w w1 : World) (e : error) :
  os_File_Write fd p w = (w1, Err e) -> fds w1 = fds w /\ gzs w1 = gzs w.
Proof.
  unfold os_File_Write. destruct (fds w !! fd) as [f|]; cbn.
  - destruct (wfault w) as [en|]; cbn.
    + intros [= <- _]. auto.
    + destruct (files w !! of_path f) as [[old|]|]; cbn;
        [discriminate|intros [= <- _]; auto..].
  - intros [= <- _]. auto.
Qed.

(** A failed close of the compression layer fails again, with the same
    error and in the same world, however often it is repeated. *)
Lemma gzip_Writer_Close_sticky (z : nat) (w w1 : World) (e : error) :
  gzip_Writer_Close z w = (w1, Err e) ->
  gzip_Writer_Close z w1 = (w1, Err e) /\ fds w1 = fds w.
Proof.
  unfold gzip_Writer_Close at 1.
  destruct (gzs w !! z) as [g|] eqn:Hz.
  - destruct (gz_err g) as [e0|] eqn:He0.
    + intros [= <- <-]. split; [|reflexivity].
      unfold gzip_Writer_Close. now rewrite Hz, He0.
    + destruct (gz_closed g); [discriminate|].
      destruct (os_File_Write _ _ _) as [w' [n|e']] eqn:Hw; [discriminate|].
      intros [= <- <-].
      destruct (os_File_Write_fails_fds _ _ _ _ _ Hw) as [Hd _].
      split; [|exact Hd].
      unfold gzip_Writer_Close. cbn. rewrite lookup_insert_eq. reflexivity.
  - intros [= <- <-]. split; [|reflexivity].
    unfold gzip_Writer_Close. now rewrite Hz.
Qed.

End FailedClose.

(** X9: when the close of the compression layer has failed, calling
    [Close] on the writer again does not help: every further call
    returns the same error without reaching the file, so the descriptors
    that were open stay open. *)
Theorem Close_retry_never_closes `{Externals}
    (z fd : nat) (w w1 : World) (e : error) (n : nat) :
  gzip_Writer_Close z w = (w1, Err e) ->
  closewrapper_Close {| WriteCloser := gzipWriteCloser z;
                        underlying := fileCloser fd |} w = (w1, Err e) /\
  fds w1 = fds w /\
  retryClose {| WriteCloser := gzipWriteCloser z;
                underlying := fileCloser fd |} n (w1, Err e) = (w1, Err e).
Proof.
  intros Hfail.
  destruct (gzip_Writer_Close_sticky z w w1 e Hfail) as [Hagain Hd].
  split; [|split; [exact Hd|]].
  - unfold closewrapper_Close, bind. cbn. now rewrite Hfail.
  - induction n as [|n IH]; [reflexivity|].
    change (retryClose ?c (S n) ?st)
      with (closewrapper_Close c (fst (retryClose c n st))).
    rewrite IH. cbn [fst].
    unfold closewrapper_Close, bind. cbn. now rewrite Hagain.
Qed.

(** The writer of the file [a] on the full disk, closed three times. *)
Lemma Close_retry_never_closes_witness :
  retryClose {| WriteCloser := @gzipWriteCloser sampleExternals 4;
                underlying := fileCloser 3 |} 2
    (fst (@gzip_Writer_Close sampleExternals 4 fullDiskWorld),
     Err (PathError "write" "exp/a.json.gz" ENOSPC))
  = (fst (@gzip_Writer_Close sampleExternals 4 fullDiskWorld),
     Err (PathError "write" "exp/a.json.gz" ENOSPC)) /\
  fds (fst (@gzip_Writer_Close sampleExternals 4 fullDiskWorld)) !! 3%nat
  = Some {| of_path := "exp/a.json.gz"; of_off := 0%nat |}.
Proof.
  destruct (@Close_retry_never_closes sampleExternals 4 3 fullDiskWorld
              (fst (@gzip_Writer_Close sampleExternals 4 fullDiskWorld))
              (PathError "write" "exp/a.json.gz" ENOSPC) 2)
    as (_ & Hd & Hretry).
  - vm_compute. reflexivity.
  - split; [exact Hretry|]. rewrite Hd. vm_compute. reflexivity.
Defined.

(** X10: one zero-length chunk file is enough to make the scan of
    [Channels] fail: if the walk reaches, without an earlier fatal visit,
    an entry ending in [.json.gz] that is an empty regular file, the
    whole call returns "chunk file is empty" and the channels collected
    so far are dropped. *)
Theorem Channels_scan_fails_on_empty_file `{ChunkConsts} `{Externals}
    (d : Directory) (w : World) (pre post : list visit) (p : string) :
  files w !! Directory_filename d "channels" = None \/
  files w !! Directory_filename d "channels" = Some Dir ->
  walkVisits (files w) (dir d) = pre ++ VisitEntry p false :: post ->
  Forall (fun v => fatal (files w) v = None) pre ->
  HasSuffix p ext = true ->
  files w !! p = Some (Regular []) ->
  snd (Directory_Channels d w) = Err (New "chunk file is empty").
Proof.
  intros Hsnap Hvs Hpre Hsuf Hp.
  rewrite (Channels_scan_step d w Hsnap), Hvs.
  apply (walkLoop_abort (files w)); [exact Hpre| |reflexivity].
  unfold fatal, scanned. rewrite Hsuf.
  unfold chanInfoAt, fileAt, chunkFileContents. rewrite Hp. reflexivity.
Qed.

(** The broken export: the channels of its first file are lost. *)
Lemma Channels_scan_fails_on_empty_file_witness :
  snd (@Directory_Channels sampleConsts sampleExternals {| dir := "exp" |}
         brokenWorld)
    = Err (New "chunk file is empty").
Proof.
  apply (@Channels_scan_fails_on_empty_file sampleConsts sampleExternals
           {| dir := "exp" |} brokenWorld
           [VisitEntry "exp" true; VisitEntry "exp/a.json.gz" false]
           [VisitEntry "exp/c.json.gz" false] "exp/b.json.gz").
  - left. vm_compute. reflexivity.
  - vm_compute. reflexivity.
  - apply (bool_decide_unpack _). vm_compute. exact I.
  - vm_compute. reflexivity.
  - vm_compute. reflexivity.
Defined.

(** In the scan of the sample export the file [a.json.gz] is opened, and
    it is one of the chunk files the walk reports. *)
Lemma Channels_opens_only_chunk_files_witness :
  EvOpen "exp/a.json.gz"
    ∈ trace (fst (@Directory_Channels sampleConsts sampleExternals
                    {| dir := "exp" |} scanWorld)) /\
  (EvOpen "exp/a.json.gz" ∈ trace scanWorld \/
   "exp/a.json.gz" = @Directory_filename sampleExternals {| dir := "exp" |} "channels" \/
   (VisitEntry "exp/a.json.gz" false
      ∈ @walkVisits sampleExternals (files scanWorld) "exp" /\
    HasSuffix "exp/a.json.gz" ext = true)).
Proof.
  assert (Hin : EvOpen "exp/a.json.gz"
    ∈ trace (fst (@Directory_Channels sampleConsts sampleExternals
                    {| dir := "exp" |} scanWorld)))
    by (apply (bool_decide_unpack _); vm_compute; exact I).
  split; [exact Hin|].
  exact (@Channels_opens_only_chunk_files sampleConsts sampleExternals
           {| dir := "exp" |} scanWorld "exp/a.json.gz" Hin).
Defined.

Example sanitize_samples :
  @sanitize sampleURLParser "https://acme.slack.com/archives" = Ok "acme" /\
  @sanitize sampleURLParser "acme.slack.com" = Ok "acme" /\
  @sanitize sampleURLParser "acme" = Ok "acme" /\
  filepath_Ext "a/b.c/users" = "" /\ filepath_Ext "users.cache" = ".cache" /\
  filepath_Base "/x/y/" = "y" /\ filepath_Base "///" = "/" /\
  maybeAppendExt "users" ".cache" = "users" /\
  wspName "/home/u/provider.bin" = "default" /\
  wspName "/home/u/acme.bin" = "acme" /\
  indexOf ["a"; "b"; "a"] "a" = 0 /\ indexOf ["a"; "b"] "c" = -1.
Proof. vm_compute. auto 20. Qed.

(** ** Strings and path names *)

Lemma append_cons (a : ascii) (s t : string) :
  String a s +:+ t = String a (s +:+ t).
Proof. reflexivity. Qed.

Lemma append_empty_l (t : string) : "" +:+ t = t.
Proof. reflexivity. Qed.

Lemma length_append (s t : string) :
  String.length (s +:+ t) = (String.length s + String.length t)%nat.
Proof.
  induction s as [|a s IH]; [reflexivity|].
  rewrite append_cons. cbn. now rewrite IH.
Qed.

Lemma substring_0_append (s t : string) :
  substring 0 (String.length s) (s +:+ t) = s.
Proof.
  induction s as [|a s IH].
  - rewrite append_empty_l. destruct t; reflexivity.
  - rewrite append_cons. cbn. now rewrite IH.
Qed.

Lemma list_ascii_append (s t : string) :
  list_ascii_of_string (s +:+ t)
  = list_ascii_of_string s ++ list_ascii_of_string t.
Proof.
  induction s as [|a s IH]; [reflexivity|].
  rewrite append_cons. cbn. now rewrite IH.
Qed.

Lemma list_ascii_inj (s t : string) :
  list_ascii_of_string s = list_ascii_of_string t -> s = t.
Proof.
  intros Heq. rewrite <- (string_of_list_ascii_of_string s),
    <- (string_of_list_ascii_of_string t). now rewrite Heq.
Qed.

Lemma extScan_found (backwards seen : list ascii) :
  extScan backwards seen = [] \/
  ((length seen < length (extScan backwards seen))%nat /\
   (length (extScan backwards seen) = S (length seen) ->
    exists before, backwards = "."%char :: before)).
Proof.
  revert seen. induction backwards as [|c before IH]; intros seen; cbn.
  - now left.
  - destruct (Ascii.eqb c "/"); [now left|].
    destruct (Ascii.eqb_spec c "."%char) as [->|Hc].
    + right. cbn. split; [lia|]. intros _. now exists before.
    + destruct (IH (c :: seen)) as [Hnil|[Hlen Hone]]; [now left|].
      right. cbn in Hlen. split; [lia|]. intros Heq. lia.
Qed.

Lemma Ext_dot_last (f : string) :
  filepath_Ext f = "." -> last (list_ascii_of_string f) = Some "."%char.
Proof.
  unfold filepath_Ext. intros Hext.
  apply (f_equal list_ascii_of_string) in Hext.
  rewrite list_ascii_of_string_of_list_ascii in Hext. cbn in Hext.
  destruct (extScan_found (rev (list_ascii_of_string f)) [])
    as [Hnil|[_ Hone]]; [congruence|].
  destruct Hone as [before Hrev]; [now rewrite Hext|].
  apply (f_equal (@rev ascii)) in Hrev. rewrite rev_involutive in Hrev.
  rewrite Hrev. cbn. apply last_snoc.
Qed.

Lemma last_dot_Ext (f : string) :
  last (list_ascii_of_string f) = Some "."%char -> filepath_Ext f = ".".
Proof.
  intros Hlast. unfold filepath_Ext.
  destruct (list_ascii_of_string f) as [|c l] using rev_ind;
    [discriminate|].
  rewrite last_snoc in Hlast. injection Hlast as ->.
  rewrite rev_unit. reflexivity.
Qed.

Lemma Ext_append_bin (s : string) : filepath_Ext (s +:+ ".bin") = ".bin".
Proof.
  unfold filepath_Ext. rewrite list_ascii_append, rev_app_distr. reflexivity.
Qed.

Lemma lastElement_noslash (backwards seen : list ascii) :
  ~ In "/"%char backwards -> lastElement backwards seen = rev backwards ++ seen.
Proof.
  revert seen. induction backwards as [|c before IH]; intros seen Hno;
    [reflexivity|].
  cbn. destruct (Ascii.eqb_spec c "/"%char) as [->|Hc].
  - exfalso. apply Hno. now left.
  - rewrite IH by (intros Hin; apply Hno; now right).
    now rewrite <- app_assoc.
Qed.

Lemma stripSlashes_noslash (backwards : list ascii) :
  ~ In "/"%char backwards -> stripSlashes backwards = backwards.
Proof.
  destruct backwards as [|c before]; [reflexivity|]. intros Hno. cbn.
  destruct (Ascii.eqb_spec c "/"%char) as [->|Hc]; [|reflexivity].
  exfalso. apply Hno. now left.
Qed.

Lemma Base_noSlash (s : string) :
  s <> "" -> noSlash s -> filepath_Base s = s.
Proof.
  intros Hne Hno. unfold filepath_Base.
  destruct (String.eqb_spec s "") as [->|_]; [congruence|].
  assert (Hrev : ~ In "/"%char (rev (list_ascii_of_string s)))
    by (intros Hin; apply Hno; now apply in_rev).
  rewrite stripSlashes_noslash, lastElement_noslash by exact Hrev.
  rewrite rev_involutive, app_nil_r.
  destruct (list_ascii_of_string s) as [|c l] eqn:Hl.
  - exfalso. apply Hne. apply list_ascii_inj. now rewrite Hl.
  - rewrite <- Hl. apply string_of_list_ascii_of_string.
Qed.

(** X11: the workspace name read back from the file name made for it is
    the name itself, for every name without a path separator but two:
    the empty name and the name "provider" both come back as "default",
    because all three share the file [provider.bin]. *)
Theorem wspName_of_filename (name : string) :
  noSlash name ->
  wspName (Manager_filename name) =
    if bool_decide (name = "" \/ name = "provider") then "default" else name.
Proof.
  intros Hno. unfold Manager_filename.
  destruct (String.eqb_spec name defName) as [->|Hdef]; [reflexivity|].
  destruct (String.eqb_spec name "") as [->|Hempty]; [reflexivity|].
  cbn [orb]. unfold wspName.
  rewrite Base_noSlash.
  - destruct (String.eqb_spec (name +:+ wspExt) defCredsFile) as [Heq|Hneq].
    + assert (name = "provider") as ->.
      { apply list_ascii_inj.
        apply (f_equal list_ascii_of_string) in Heq.
        unfold defCredsFile in Heq. rewrite !list_ascii_append in Heq.
        now apply app_inv_tail in Heq. }
      reflexivity.
    + unfold wspExt. rewrite Ext_append_bin, length_append.
      replace (String.length name + String.length ".bin"
               - String.length ".bin")%nat with (String.length name) by lia.
      rewrite substring_0_append.
      rewrite bool_decide_eq_false_2; [reflexivity|].
      intros [->| ->]; [congruence|]. now apply Hneq.
  - intros Heq. apply (f_equal String.length) in Heq.
    rewrite length_append in Heq. cbn in Heq. lia.
  - unfold noSlash. rewrite list_ascii_append.
    intros [Hin|Hin]%in_app_or; [now apply Hno|].
    cbn in Hin. intuition discriminate.
Qed.

(** The names "acme", "provider" and the empty name. *)
Lemma wspName_of_filename_witness :
  wspName (Manager_filename "acme") = "acme" /\
  wspName (Manager_filename "provider") = "default" /\
  wspName (Manager_filename "") = "default".
Proof.
  split; [|split].
  - apply (wspName_of_filename "acme"). unfold noSlash. cbn. intuition discriminate.
  - apply (wspName_of_filename "provider"). unfold noSlash. cbn.
    intuition discriminate.
  - apply (wspName_of_filename ""). unfold noSlash. cbn. intuition.
Defined.

(** X12: [maybeAppendExt] never appends the extension it is given: unless
    that extension is empty, the result is the file name with one more
    dot when it ends in a dot, and the file name as it is otherwise.  So
    the cache file names set through [WithUserCacheBase] and
    [WithChannelCacheBase] are the names given, never with [.cache]
    added. *)
Theorem maybeAppendExt_appends_no_extension (filename : string) (m : Manager) :
  maybeAppendExt filename "" = filename /\
  (forall ext, ext <> "" -> maybeAppendExt filename ext = appendedDot filename) /\
  (filename <> "" ->
   userFile (WithUserCacheBase filename m) = appendedDot filename /\
   channelFile (WithChannelCacheBase filename m) = appendedDot filename) /\
  WithUserCacheBase "" m = m /\ WithChannelCacheBase "" m = m.
Proof.
  assert (Hchar : forall ext, ext <> "" ->
            maybeAppendExt filename ext = appendedDot filename).
  { intros ext Hext. unfold maybeAppendExt, appendedDot.
    destruct (String.eqb_spec ext "") as [|_]; [congruence|].
    destruct (decide (last (list_ascii_of_string filename) = Some "."%char))
      as [Hlast|Hlast].
    - rewrite bool_decide_eq_true_2 by exact Hlast.
      now rewrite (last_dot_Ext filename Hlast).
    - rewrite bool_decide_eq_false_2 by exact Hlast.
      destruct (String.eqb_spec (filepath_Ext filename) "") as [->|_];
        [apply append_empty_r|].
      destruct (String.eqb_spec (filepath_Ext filename) ".") as [Hdot|_];
        [|reflexivity].
      exfalso. now apply Hlast, Ext_dot_last. }
  split; [reflexivity|]. split; [exact Hchar|]. split; [|split; reflexivity].
  intros Hne. unfold WithUserCacheBase, WithChannelCacheBase.
  destruct (String.eqb_spec filename "") as [|_]; [congruence|].
  cbn [userFile channelFile].
  split; apply Hchar; discriminate.
Qed.

(** ** [indexOf] and [exist] *)

Lemma indexOfFrom_first {T} `{EqDecision T} (ss : list T) (s : T) :
  forall i : Z,
    ((s ∉ ss) /\ indexOfFrom i ss s = -1) \/
    (exists k : nat,
       ss !! k = Some s /\
       (forall j : nat, (j < k)%nat -> ss !! j <> Some s) /\
       indexOfFrom i ss s = i + Z.of_nat k).
Proof.
  induction ss as [|x rest IH]; intros i.
  - left. split; [apply not_elem_of_nil|reflexivity].
  - cbn [indexOfFrom]. destruct (decide (s = x)) as [->|Hne].
    + right. exists 0%nat. split; [reflexivity|]. split; [lia|lia].
    + destruct (IH (i + 1)) as [[Hnot Hres]|(k & Hk & Hmin & Hres)].
      * left. split; [|exact Hres].
        intros [Heq|Hin]%elem_of_cons; [congruence|contradiction].
      * right. exists (S k). split; [exact Hk|]. split; [|lia].
        intros [|j] Hj; cbn; [congruence|apply Hmin; lia].
Qed.

(** X13: [indexOf] returns the position of the first element equal to the
    one looked for, and -1 exactly when there is none; [exist] is
    membership. *)
Theorem indexOf_first_position {T} `{EqDecision T} (ss : list T) (s : T) :
  (indexOf ss s = -1 <-> s ∉ ss) /\
  (forall k : nat,
     indexOf ss s = Z.of_nat k <->
     ss !! k = Some s /\ forall j : nat, (j < k)%nat -> ss !! j <> Some s) /\
  (exist_ ss s = true <-> s ∈ ss).
Proof.
  unfold exist_, indexOf.
  destruct (indexOfFrom_first ss s 0) as [[Hnot Hres]|(k & Hk & Hmin & Hres)].
  - rewrite Hres. split; [tauto|]. split.
    + intros k. split; [lia|]. intros [Hk _]. exfalso. apply Hnot.
      apply list_elem_of_lookup. eauto.
    + split; [discriminate|contradiction].
  - rewrite Hres. assert (Hin : s ∈ ss) by (apply list_elem_of_lookup; eauto).
    split; [split; [lia|contradiction]|]. split.
    + intros k'. split.
      * intros Heq. assert (k' = k) as -> by lia. auto.
      * intros [Hk' Hmin'].
        destruct (Nat.lt_trichotomy k k') as [Hlt|[->|Hlt]]; [|lia|].
        -- exfalso. now apply (Hmin' k).
        -- exfalso. now apply (Hmin k').
    + split; [auto|]. intros _. apply Z.ltb_lt. lia.
Qed.

(** ** [sanitize] *)

Section Sanitize.
Context `{URLParser}.

Lemma Index_cons (a : ascii) (s substr : string) :
  strings_Index (String a s) substr =
    if String.prefix substr (String a s) then Some 0%nat
    else S <$> strings_Index s substr.
Proof. reflexivity. Qed.

Lemma prefix_dot (a : ascii) (s : string) :
  String.prefix "." (String a s) = bool_decide (a = "."%char).
Proof.
  change (String.prefix "." (String a s))
    with (if ascii_dec "." a then String.prefix "" s else false).
  destruct (ascii_dec "." a) as [<-|Hne].
  - destruct s; reflexivity.
  - symmetry. apply bool_decide_eq_false_2. congruence.
Qed.

Lemma prefix_domain (a : ascii) (s : string) :
  a <> "."%char -> String.prefix ".slack.com" (String a s) = false.
Proof.
  intros Hne.
  change (String.prefix ".slack.com" (String a s))
    with (if ascii_dec "." a then String.prefix "slack.com" s else false).
  destruct (ascii_dec "." a); [congruence|reflexivity].
Qed.

Lemma Index_no_dot_no_domain (s : string) :
  strings_Index s "." = None -> strings_Index s ".slack.com" = None.
Proof.
  induction s as [|a s IH]; [reflexivity|].
  rewrite !Index_cons, prefix_dot.
  destruct (decide (a = "."%char)) as [->|Hne].
  - rewrite bool_decide_eq_true_2 by reflexivity. discriminate.
  - rewrite bool_decide_eq_false_2 by exact Hne.
    rewrite prefix_domain by exact Hne.
    destruct (strings_Index s ".") eqn:Hs; [discriminate|].
    intros _. now rewrite IH.
Qed.

Lemma Index_before_first_dot (s : string) :
  forall m : nat,
    strings_Index s "." = Some m ->
    strings_Index (substring 0 m s) "." = None.
Proof.
  induction s as [|a s IH]; intros m; [discriminate|].
  rewrite Index_cons, prefix_dot.
  destruct (decide (a = "."%char)) as [->|Hne].
  - rewrite bool_decide_eq_true_2 by reflexivity. intros [= <-]. reflexivity.
  - rewrite bool_decide_eq_false_2 by exact Hne.
    destruct (strings_Index s ".") as [m'|] eqn:Hs; [|discriminate].
    intros [= <-]. cbn [substring].
    rewrite Index_cons, prefix_dot, bool_decide_eq_false_2 by exact Hne.
    now rewrite (IH m').
Qed.

(** The first part of a string cut at its dots. *)
Lemma Split_dot_head (s : string) :
  exists part rest,
    strings_Split s "." = part :: rest /\ strings_Index part "." = None.
Proof.
  unfold strings_Split. destruct (strings_Index s ".") as [m|] eqn:Hs.
  - destruct s as [|a s]; [discriminate|].
    cbn [String.length splitLoop]. rewrite Hs.
    do 2 eexists. split; [reflexivity|].
    now apply Index_before_first_dot.
  - exists s, [].
    destruct s as [|a s]; [auto|].
    cbn [String.length splitLoop]. rewrite Hs. auto.
Qed.

Lemma sanitize_clean (w : string) :
  Contains w ".slack.com" = false -> sanitize w = Ok w.
Proof. intros Hc. unfold sanitize. now rewrite Hc. Qed.

Lemma no_dot_clean (r : string) :
  strings_Index r "." = None -> Contains r ".slack.com" = false.
Proof.
  intros Hr. unfold Contains. rewrite (Index_no_dot_no_domain r Hr).
  apply bool_decide_eq_false_2. intros [x Hx]. discriminate.
Qed.

End Sanitize.

(** X14: what [sanitize] returns never contains [".slack.com"], and
    sanitizing it again gives it back unchanged; a name without
    [".slack.com"] is returned as it is, and one with it comes back
    without a single dot. *)
Theorem sanitize_idempotent `{URLParser} (workspace r : string) :
  sanitize workspace = Ok r ->
  Contains r ".slack.com" = false /\
  sanitize r = Ok r /\
  (Contains workspace ".slack.com" = false -> r = workspace) /\
  (Contains workspace ".slack.com" = true -> strings_Index r "." = None).
Proof.
  unfold sanitize at 1.
  destruct (Contains workspace ".slack.com") eqn:Hc; cbn [negb].
  - intros Hres.
    assert (Hdot : strings_Index r "." = None).
    { destruct (if HasPrefix workspace "https://" then url_Host workspace
                else Ok workspace) as [host|e]; [|discriminate].
      cbn [bindResult] in Hres.
      destruct (Split_dot_head host) as (part & rest & Hsplit & Hpart).
      rewrite Hsplit in Hres. now injection Hres as <-. }
    split; [now apply no_dot_clean|].
    split; [now apply sanitize_clean, no_dot_clean|].
    split; [discriminate|auto].
  - intros [= <-]. split; [exact Hc|].
    split; [now apply sanitize_clean|]. split; [auto|discriminate].
Qed.

(** An address of a workspace, and the name alone. *)
Lemma sanitize_idempotent_witness :
  @sanitize sampleURLParser "https://acme.slack.com/archives" = Ok "acme" /\
  @sanitize sampleURLParser "acme" = Ok "acme".
Proof.
  assert (Hs : @sanitize sampleURLParser "https://acme.slack.com/archives"
               = Ok "acme") by (vm_compute; reflexivity).
  split; [exact Hs|].
  exact (proj1 (proj2 (@sanitize_idempotent sampleURLParser _ _ Hs))).
Defined.

Example entity_list_samples :
  snd (@NewEntityList sampleEntityExternals 1 ["C1"; "^C2"; "C2"; ""; "^"] emptyWorld)
    = Ok {| Include := ["C1"]; Exclude := ["C2"] |} /\
  snd (@NewEntityList sampleEntityExternals 1 ["C2"; "C1"; "@lists/skip.txt"] listWorld)
    = Ok {| Include := ["C1"]; Exclude := ["C2"] |} /\
  snd (@NewEntityList sampleEntityExternals 0 ["C2"; "@lists/skip.txt"] listWorld)
    = Err (New "files nested too deep") /\
  snd (@NewEntityList sampleEntityExternals 1 ["C1"; "@lists/none.txt"] listWorld)
    = Err (PathError "open" "lists/none.txt" ENOENT).
Proof. vm_compute. auto. Qed.

(** ** The entity list and its index *)

Lemma fold_insert_lookup (b : bool) (l : list string) :
  forall (m : gmap string bool) (e : string),
    fold_left (fun idx v => <[v := b]> idx) l m !! e =
      if decide (e ∈ l) then Some b else m !! e.
Proof.
  induction l as [|v l IH]; intros m e; cbn [fold_left].
  - rewrite decide_False by apply not_elem_of_nil. reflexivity.
  - rewrite IH. destruct (decide (e ∈ l)) as [Hin|Hnot].
    + rewrite decide_True by (now right). reflexivity.
    + destruct (decide (e = v)) as [->|Hne].
      * rewrite decide_True by left. apply lookup_insert_eq.
      * rewrite decide_False
          by (intros [Heq|Hin]%elem_of_cons; [congruence|contradiction]).
        now apply lookup_insert_ne.
Qed.

Lemma Index_lookup (el : EntityList) (ent : string) :
  EntityList_Index (Some el) !! ent =
    if decide (ent ∈ Exclude el) then Some false
    else if decide (ent ∈ Include el) then Some true
    else None.
Proof.
  unfold EntityList_Index. rewrite !fold_insert_lookup.
  destruct (decide (ent ∈ Exclude el)); [reflexivity|].
  destruct (decide (ent ∈ Include el)); [reflexivity|apply lookup_empty].
Qed.

(** X15: in the index of an entity list exclusion wins: an entity is
    excluded exactly when it is in [Exclude], and included exactly when
    it is in [Include] and not in [Exclude]; never both.  The index of a
    nil list has nothing in it. *)
Theorem Index_exclusion_wins (el : EntityList) (ent : string) :
  (IsExcluded (EntityList_Index (Some el)) ent = true <-> ent ∈ Exclude el) /\
  (IsIncluded (EntityList_Index (Some el)) ent = true <->
     ent ∈ Include el /\ ent ∉ Exclude el) /\
  IsExcluded (EntityList_Index None) ent = false /\
  IsIncluded (EntityList_Index None) ent = false /\
  (forall ei : gmap string bool,
     IsExcluded ei ent && IsIncluded ei ent = false).
Proof.
  unfold IsExcluded, IsIncluded. rewrite Index_lookup.
  split; [|split; [|split; [|split]]].
  - destruct (decide (ent ∈ Exclude el)); [tauto|].
    destruct (decide (ent ∈ Include el)); cbn; split;
      try discriminate; contradiction.
  - destruct (decide (ent ∈ Exclude el)).
    + split; [discriminate|tauto].
    + destruct (decide (ent ∈ Include el)); [tauto|].
      split; [discriminate|tauto].
  - reflexivity.
  - reflexivity.
  - intros ei. destruct (ei !! ent) as [[|]|]; reflexivity.
Qed.

Section FromIndex.

Lemma fold_appendEntry (order : list (string * bool)) :
  forall el : EntityList,
    Include (fold_left appendEntry order el) =
      Include el ++ (filter (fun e => e.2 = true) order).*1 /\
    Exclude (fold_left appendEntry order el) =
      Exclude el ++ (filter (fun e => e.2 = false) order).*1.
Proof.
  induction order as [|[ent b] order IH]; intros el; cbn [fold_left].
  - cbn. now rewrite !app_nil_r.
  - destruct (IH (appendEntry el (ent, b))) as [-> ->].
    unfold appendEntry. destruct b; cbn [fst snd Include Exclude].
    + rewrite filter_cons_True by reflexivity.
      rewrite filter_cons_False by discriminate.
      cbn. now rewrite <- app_assoc.
    + rewrite filter_cons_False by discriminate.
      rewrite filter_cons_True by reflexivity.
      cbn. now rewrite <- app_assoc.
Qed.

Lemma sort_Strings_perm (l1 l2 : list string) :
  l1 ≡ₚ l2 -> sort_Strings l1 = sort_Strings l2.
Proof.
  intros Hp. unfold sort_Strings.
  apply (StronglySorted_unique String.le).
  - apply StronglySorted_merge_sort; apply _.
  - apply StronglySorted_merge_sort; apply _.
  - now rewrite !merge_sort_Permutation.
Qed.

Lemma elem_of_sort_Strings (l : list string) (e : string) :
  e ∈ sort_Strings l <-> e ∈ l.
Proof. unfold sort_Strings. now rewrite merge_sort_Permutation. Qed.

Lemma elem_of_with_value (index : gmap string bool) (b : bool) (e : string) :
  e ∈ (filter (fun en : string * bool => en.2 = b) (map_to_list index)).*1
  <-> index !! e = Some b.
Proof.
  rewrite list_elem_of_fmap. split.
  - intros ([e' b'] & -> & [Hb Hin]%list_elem_of_filter). cbn in *. subst b'.
    now apply elem_of_map_to_list.
  - intros Hl. exists (e, b). split; [reflexivity|].
    apply list_elem_of_filter. split; [reflexivity|].
    now apply elem_of_map_to_list.
Qed.

End FromIndex.

(** X16: the entity list made from an index gives that index back, its two
    lists are in increasing order, and each holds exactly the keys with
    its value. *)
Theorem fromIndex_Index_round_trip (index : gmap string bool) :
  EntityList_Index (Some (fromIndex index zeroEntityList)) = index /\
  Sorted String.le (Include (fromIndex index zeroEntityList)) /\
  Sorted String.le (Exclude (fromIndex index zeroEntityList)) /\
  (forall e, e ∈ Include (fromIndex index zeroEntityList)
             <-> index !! e = Some true) /\
  (forall e, e ∈ Exclude (fromIndex index zeroEntityList)
             <-> index !! e = Some false).
Proof.
  assert (Hin : forall e, e ∈ Include (fromIndex index zeroEntityList)
                          <-> index !! e = Some true).
  { intros e. unfold fromIndex, fromIndexIn. cbn [Include].
    rewrite elem_of_sort_Strings.
    destruct (fold_appendEntry (map_to_list index) zeroEntityList) as [-> _].
    cbn. apply elem_of_with_value. }
  assert (Hex : forall e, e ∈ Exclude (fromIndex index zeroEntityList)
                          <-> index !! e = Some false).
  { intros e. unfold fromIndex, fromIndexIn. cbn [Exclude].
    rewrite elem_of_sort_Strings.
    destruct (fold_appendEntry (map_to_list index) zeroEntityList) as [_ ->].
    cbn. apply elem_of_with_value. }
  split; [|split; [|split; [|split]]]; [| | |exact Hin|exact Hex].
  - apply map_eq. intros e. rewrite Index_lookup.
    destruct (decide (e ∈ Exclude (fromIndex index zeroEntityList))) as [He|He].
    { symmetry. now apply Hex. }
    destruct (decide (e ∈ Include (fromIndex index zeroEntityList))) as [Hi|Hi].
    { symmetry. now apply Hin. }
    destruct (index !! e) as [[|]|] eqn:Hl; [| |reflexivity].
    + exfalso. now apply Hi, Hin.
    + exfalso. now apply He, Hex.
  - apply Sorted_merge_sort. apply _.
  - apply Sorted_merge_sort. apply _.
Qed.

(** X17: the order in which [fromIndex] happens to range over the map does
    not show in its result: two orders of the same entries give the same
    entity list. *)
Theorem fromIndex_any_order (order1 order2 : list (string * bool))
    (el : EntityList) :
  order1 ≡ₚ order2 ->
  fromIndexIn order1 el = fromIndexIn order2 el.
Proof.
  intros Hp. unfold fromIndexIn.
  destruct (fold_appendEntry order1 el) as [-> ->].
  destruct (fold_appendEntry order2 el) as [-> ->].
  f_equal; apply sort_Strings_perm; now rewrite Hp.
Qed.

(** Three entries listed in two orders. *)
Lemma fromIndex_any_order_witness :
  fromIndexIn [("C2", false); ("C1", true); ("C0", true)] zeroEntityList
  = fromIndexIn [("C0", true); ("C1", true); ("C2", false)] zeroEntityList.
Proof.
  apply fromIndex_any_order.
  change ([("C2", false)] ++ [("C1", true); ("C0", true)]
          ≡ₚ [("C0", true); ("C1", true); ("C2", false)]).
  rewrite Permutation_app_comm. cbn.
  apply perm_swap || (constructor; constructor).
Defined.

(** ** Building the index of an entity list *)

Section BuildIndex.
Context `{EntityExternals}.

Lemma substring_all (x : string) : substring 0 (String.length x) x = x.
Proof.
  rewrite <- (append_empty_r x) at 2. apply substring_0_append.
Qed.

Lemma prefix_empty (s : string) : String.prefix "" s = true.
Proof. destruct s; reflexivity. Qed.

Lemma TrimPrefix_exclude (x : string) :
  HasExcludePrefix (excludePrefix +:+ x) = true /\
  TrimPrefix (excludePrefix +:+ x) excludePrefix = x.
Proof.
  unfold HasExcludePrefix, TrimPrefix, HasPrefix, excludePrefix.
  change ("^" +:+ x) with (String "^" x).
  change (String.prefix "^" (String "^" x))
    with (if ascii_dec "^" "^" then String.prefix "" x else false).
  destruct (ascii_dec "^" "^") as [_|Hne]; [|congruence].
  rewrite prefix_empty. split; [reflexivity|].
  cbn [String.length substring].
  replace (S (String.length x) - 1)%nat with (String.length x) by lia.
  apply substring_all.
Qed.

Lemma scanEntries_excluded (links : list string) :
  forall en en' : entries,
    scanEntries links en = Ok en' ->
    (forall k, k ∈ en_excluded en -> k ∈ en_excluded en') /\
    (forall x k, (excludePrefix +:+ x) ∈ links -> x <> "" ->
                 linkString x = Ok k -> k ∈ en_excluded en').
Proof.
  induction links as [|ent rest IH]; intros en en'.
  - intros [= <-]. split; [auto|]. intros x k Hin. inversion Hin.
  - cbn [scanEntries].
    assert (Hhead : forall en0,
      scanEntries rest en0 = Ok en' ->
      (forall k, k ∈ en_excluded en -> k ∈ en_excluded en0) ->
      (forall x k, ent = excludePrefix +:+ x -> x <> "" ->
                   linkString x = Ok k -> k ∈ en_excluded en0) ->
      (forall k, k ∈ en_excluded en -> k ∈ en_excluded en') /\
      (forall x k, (excludePrefix +:+ x) ∈ ent :: rest -> x <> "" ->
                   linkString x = Ok k -> k ∈ en_excluded en')).
    { intros en0 Hscan Hkeep Hthis. destruct (IH en0 en' Hscan) as [Hk Hx].
      split; [auto|].
      intros x k [Heq|Hin]%elem_of_cons Hne Hl; [|eauto].
      apply Hk. eapply Hthis; eauto. }
    destruct (String.eqb_spec ent "") as [->|Hent].
    { intros Hscan. apply (Hhead en Hscan); [auto|].
      intros x k Heq. unfold excludePrefix in Heq. discriminate. }
    destruct (HasExcludePrefix ent) eqn:Hexcl.
    + destruct (String.eqb_spec (TrimPrefix ent excludePrefix) "")
        as [Htrim|Htrim].
      { intros Hscan. apply (Hhead en Hscan); [auto|].
        intros x k -> Hne. exfalso. apply Hne.
        now rewrite (proj2 (TrimPrefix_exclude x)) in Htrim. }
      destruct (linkString (TrimPrefix ent excludePrefix)) as [sl|e] eqn:Hl;
        [|discriminate].
      intros Hscan. apply (Hhead _ Hscan); cbn [en_excluded].
      * intros k Hk. apply elem_of_app. now left.
      * intros x k -> Hne Hx.
        rewrite (proj2 (TrimPrefix_exclude x)) in Hl.
        apply elem_of_app. right. rewrite Hx in Hl. injection Hl as ->. left.
    + assert (Hnot : forall x, ent <> excludePrefix +:+ x).
      { intros x ->. now rewrite (proj1 (TrimPrefix_exclude x)) in Hexcl. }
      destruct (hasFilePrefix ent).
      * destruct (String.eqb (TrimPrefix ent filePrefix) "").
        { intros Hscan. apply (Hhead en Hscan); [auto|].
          intros x k Heq. now apply Hnot in Heq. }
        intros Hscan. apply (Hhead _ Hscan); cbn [en_excluded]; [auto|].
        intros x k Heq. now apply Hnot in Heq.
      * destruct (linkString ent) as [sl|e]; [|discriminate].
        intros Hscan. apply (Hhead _ Hscan); cbn [en_excluded]; [auto|].
        intros x k Heq. now apply Hnot in Heq.
Qed.

Lemma mergeEntry_excluded (l : list (string * bool)) :
  forall (acc : gmap string bool * list string) (k : string),
    k ∈ acc.2 -> k ∈ (fold_left mergeEntry l acc).2.
Proof.
  induction l as [|[ent b] l IH]; intros acc k Hk; [exact Hk|].
  cbn [fold_left]. apply IH. unfold mergeEntry. destruct b; cbn; [exact Hk|].
  apply elem_of_app. now left.
Qed.

Lemma loadFiles_excluded (load : string -> M EntityList) (files : list string) :
  forall (acc acc' : gmap string bool * list string) (w w' : World) (k : string),
    loadFiles load files acc w = (w', Ok acc') ->
    k ∈ acc.2 -> k ∈ acc'.2.
Proof.
  induction files as [|file rest IH]; intros acc acc' w w' k.
  - intros [= _ <-]. auto.
  - cbn [loadFiles]. unfold bind.
    destruct (load file w) as [w1 [el|e]]; [|discriminate].
    intros Hrun Hk. eapply IH; [exact Hrun|].
    now apply mergeEntry_excluded.
Qed.

Lemma buildEntryIndex_unfold (depth : nat) (links : list string) :
  buildEntryIndex depth links =
    (let* en := lift (scanEntries links
                        {| en_index := ∅; en_excluded := []; en_files := [] |}) in
     let* acc :=
       loadFiles
         (match depth with
          | O => fun _ => fail (New "files nested too deep")
          | S depth => LoadEntityListWith (buildEntryIndex depth)
          end)
         (en_files en) (en_index en, en_excluded en) in
     ret (fold_left (fun idx ent => <[ent := false]> idx) acc.2 acc.1)).
Proof. destruct depth; reflexivity. Qed.

Lemma buildEntryIndex_excluded (depth : nat) (links : list string)
    (w w' : World) (index : gmap string bool) (x k : string) :
  buildEntryIndex depth links w = (w', Ok index) ->
  (excludePrefix +:+ x) ∈ links -> x <> "" -> linkString x = Ok k ->
  index !! k = Some false.
Proof.
  rewrite buildEntryIndex_unfold. unfold bind, lift, ret.
  destruct (scanEntries links _) as [en|e] eqn:Hscan; [|discriminate].
  destruct (loadFiles _ (en_files en) _ w) as [w1 [acc|e]] eqn:Hload;
    [|discriminate].
  intros [= _ <-] Hin Hne Hl.
  rewrite fold_insert_lookup. rewrite decide_True; [reflexivity|].
  eapply loadFiles_excluded; [exact Hload|]. cbn.
  destruct (scanEntries_excluded links _ en Hscan) as [_ Hx]. eauto.
Qed.

Lemma fromIndex_members (index : gmap string bool) (e : string) :
  (e ∈ Include (fromIndex index zeroEntityList) <-> index !! e = Some true) /\
  (e ∈ Exclude (fromIndex index zeroEntityList) <-> index !! e = Some false).
Proof.
  unfold fromIndex, fromIndexIn. cbn [Include Exclude].
  rewrite !elem_of_sort_Strings.
  destruct (fold_appendEntry (map_to_list index) zeroEntityList) as [-> ->].
  cbn. split; apply elem_of_with_value.
Qed.

End BuildIndex.

(** X18: in [NewEntityList] an exclusion wins wherever it stands: when the
    entities hold ["^" + x] for a link [x], the resulting list has that
    link in [Exclude] and not in [Include], whether or not [x] is also
    listed plainly, before or after, or comes in through a file. *)
Theorem NewEntityList_exclusion_wins `{EntityExternals}
    (depth : nat) (entities : list string) (w w' : World) (el : EntityList)
    (x k : string) :
  NewEntityList depth entities w = (w', Ok el) ->
  (excludePrefix +:+ x) ∈ entities ->
  x <> "" ->
  linkString x = Ok k ->
  (k ∈ Exclude el) /\ (k ∉ Include el) /\
  IsExcluded (EntityList_Index (Some el)) k = true.
Proof.
  unfold NewEntityList, NewEntityListWith, bind, ret.
  destruct (buildEntryIndex depth entities w) as [w1 [index|e]] eqn:Hb;
    [|discriminate].
  intros [= _ <-] Hin Hne Hl.
  pose proof (buildEntryIndex_excluded depth entities w w1 index x k
                Hb Hin Hne Hl) as Hk.
  destruct (fromIndex_members index k) as [Hinc Hexc].
  assert (Hex : k ∈ Exclude (fromIndex index zeroEntityList))
    by now apply Hexc.
  split; [exact Hex|]. split.
  - intros Hi. apply Hinc in Hi. congruence.
  - unfold IsExcluded. rewrite Index_lookup.
    now rewrite decide_True by exact Hex.
Qed.

(** A channel listed plainly after its exclusion. *)
Lemma NewEntityList_exclusion_wins_witness :
  exists w' el,
    @NewEntityList sampleEntityExternals 1 ["C1"; "^C2"; "C2"] emptyWorld
      = (w', Ok el) /\
    ("C2" ∈ Exclude el) /\ ("C2" ∉ Include el).
Proof.
  destruct (@NewEntityList sampleEntityExternals 1 ["C1"; "^C2"; "C2"] emptyWorld)
    as [w' [el|e]] eqn:Hrun; [|vm_compute in Hrun; discriminate].
  exists w', el. split; [reflexivity|].
  destruct (@NewEntityList_exclusion_wins sampleEntityExternals 1
              ["C1"; "^C2"; "C2"] emptyWorld w' el "C2" "C2" Hrun)
    as (Hex & Hinc & _).
  - right. left.
  - discriminate.
  - reflexivity.
  - split; [exact Hex|exact Hinc].
Defined.

(** ** Reading an entity list from a file *)

Section ReadList.
Context `{EntityExternals}.

Lemma noNewline_cons (c : ascii) (l : string) :
  noNewline (String c l) -> c <> "010"%char /\ noNewline l.
Proof.
  unfold noNewline. cbn. intros Hno. split.
  - intros ->. apply Hno. now left.
  - intros Hin. apply Hno. now right.
Qed.

Lemma readString_line (l rest : string) :
  noNewline l ->
  readString (l +:+ String "010" rest) = (l +:+ String "010" "", Some rest).
Proof.
  induction l as [|c l IH]; intros Hno; [reflexivity|].
  apply noNewline_cons in Hno as [Hc Hl].
  rewrite !append_cons. cbn [readString].
  destruct (Ascii.eqb_spec c "010"%char); [contradiction|].
  now rewrite (IH Hl).
Qed.

Lemma readString_last (l : string) :
  noNewline l -> readString l = (l, None).
Proof.
  induction l as [|c l IH]; intros Hno; [reflexivity|].
  apply noNewline_cons in Hno as [Hc Hl]. cbn [readString].
  destruct (Ascii.eqb_spec c "010"%char); [contradiction|].
  now rewrite (IH Hl).
Qed.

Lemma linesThen_length (lines : list string) (tail : string) :
  (length lines + String.length tail <= String.length (linesThen lines tail))%nat.
Proof.
  induction lines as [|l lines IH]; cbn [linesThen fold_right length]; [lia|].
  fold (linesThen lines tail). rewrite length_append. cbn [String.length]. lia.
Qed.

(** The loop stops with an error once [maxEntries] lines were kept. *)
Lemma readLoop_full (maxEntries : Z) (lines : list string) :
  Forall noNewline lines ->
  Forall (fun l => skipped (TrimSpace (l +:+ String "010" "")) = false) lines ->
  forall (fuel : nat) (total : Z) (elements : list string),
    (length lines < fuel)%nat ->
    maxEntries <= total + Z.of_nat (length lines) ->
    readLoop fuel (linesThen lines "") maxEntries total elements
      = Err (New "maximum file size exceeded").
Proof.
  intros Hno Hent. induction lines as [|l lines IH];
    intros fuel total elements Hfuel Hmax.
  - destruct fuel; [lia|]. cbn [readLoop].
    cbn in Hmax. rewrite (proj2 (Z.leb_le _ _)) by lia. reflexivity.
  - destruct fuel; [lia|]. cbn [readLoop].
    destruct (Z.leb_spec maxEntries total); [reflexivity|].
    apply Forall_cons in Hno as [Hl Hno]. apply Forall_cons in Hent as [He Hent].
    cbn [linesThen fold_right]. fold (linesThen lines "").
    rewrite (readString_line l _ Hl). rewrite He.
    apply IH; auto; cbn [length] in *; lia.
Qed.

(** Below the limit the loop keeps every line and the unfinished last
    one. *)
Lemma readLoop_keeps (maxEntries : Z) (last : string) (lines : list string) :
  Forall noNewline lines ->
  Forall (fun l => skipped (TrimSpace (l +:+ String "010" "")) = false) lines ->
  noNewline last ->
  forall (fuel : nat) (total : Z) (elements : list string),
    (length lines < fuel)%nat ->
    total + Z.of_nat (length lines) < maxEntries ->
    readLoop fuel (linesThen lines last) maxEntries total elements
      = Ok (elements
            ++ map (fun l => TrimSpace (l +:+ String "010" "")) lines
            ++ (if skipped (TrimSpace last) then [] else [TrimSpace last])).
Proof.
  intros Hno Hent Hlast. induction lines as [|l lines IH];
    intros fuel total elements Hfuel Hmax.
  - destruct fuel; [lia|]. cbn [readLoop linesThen fold_right map].
    cbn in Hmax. rewrite (proj2 (Z.leb_gt _ _)) by lia.
    rewrite (readString_last last Hlast).
    destruct (skipped (TrimSpace last)); [now rewrite app_nil_r|reflexivity].
  - destruct fuel; [lia|]. cbn [readLoop].
    cbn [length] in Hmax. rewrite (proj2 (Z.leb_gt _ _)) by lia.
    apply Forall_cons in Hno as [Hl Hno]. apply Forall_cons in Hent as [He Hent].
    cbn [linesThen fold_right]. fold (linesThen lines last).
    rewrite (readString_line l _ Hl). rewrite He.
    rewrite IH; auto; [|cbn [length] in *; lia..].
    cbn [map]. now rewrite <- app_assoc.
Qed.

End ReadList.

(** X19: [readEntityList] counts a kept line only when a line end follows
    it, and checks the count before it reads again.  So a text of
    [maxEntries] or more kept lines, each ended by a line end, is
    refused with "maximum file size exceeded" even when nothing follows
    the last line end, while a text whose last kept line is not ended is
    read as long as fewer than [maxEntries] lines stand before it: of two
    files with exactly [maxEntries] entries, only the one without the
    final line end is accepted. *)
Theorem readEntityList_limit `{EntityExternals}
    (build : list string -> M (gmap string bool)) (lines : list string)
    (maxEntries : Z) (w : World) :
  Forall noNewline lines ->
  Forall (fun l => skipped (TrimSpace (l +:+ String "010" "")) = false) lines ->
  (maxEntries <= Z.of_nat (length lines) ->
   readEntityListWith build (linesThen lines "") maxEntries w
     = (w, Err (New "maximum file size exceeded"))) /\
  (forall last : string,
     noNewline last ->
     Z.of_nat (length lines) < maxEntries ->
     readEntityListWith build (linesThen lines last) maxEntries w
       = NewEntityListWith build
           (map (fun l => TrimSpace (l +:+ String "010" "")) lines
            ++ (if skipped (TrimSpace last) then [] else [TrimSpace last]))
           w).
Proof.
  intros Hno Hent. split.
  - intros Hmax. unfold readEntityListWith, bind, lift.
    rewrite (readLoop_full maxEntries lines Hno Hent); [reflexivity| |lia].
    pose proof (linesThen_length lines ""). lia.
  - intros last Hlast Hmax. unfold readEntityListWith, bind, lift.
    rewrite (readLoop_keeps maxEntries last lines Hno Hent Hlast);
      [reflexivity| |lia].
    pose proof (linesThen_length lines last). lia.
Qed.

(** Two entries and a limit of two: refused with the final line end,
    accepted without it. *)
Lemma readEntityList_limit_witness :
  snd (@readEntityListWith sampleEntityExternals
         (@buildEntryIndex sampleEntityExternals 0)
         (linesThen ["C1"; "C2"] "") 2 emptyWorld)
    = Err (New "maximum file size exceeded") /\
  snd (@readEntityListWith sampleEntityExternals
         (@buildEntryIndex sampleEntityExternals 0)
         (linesThen ["C1"] "C2") 2 emptyWorld)
    = Ok {| Include := ["C1"; "C2"]; Exclude := [] |}.
Proof.
  split.
  - destruct (@readEntityList_limit sampleEntityExternals
                (@buildEntryIndex sampleEntityExternals 0) ["C1"; "C2"] 2
                emptyWorld) as [Hfull _].
    + repeat constructor; unfold noNewline; cbn; intuition discriminate.
    + repeat constructor.
    + rewrite Hfull; [reflexivity|cbn; lia].
  - destruct (@readEntityList_limit sampleEntityExternals
                (@buildEntryIndex sampleEntityExternals 0) ["C1"] 2
                emptyWorld) as [_ Hkeep].
    + repeat constructor; unfold noNewline; cbn; intuition discriminate.
    + repeat constructor.
    + rewrite (Hkeep "C2"); [vm_compute; reflexivity| |cbn; lia].
      unfold noNewline; cbn; intuition discriminate.
Defined.

(** ** List files are released *)

Section QuietLists.
Context `{EntityExternals}.

Lemma quiet_readAll (fd : nat) : quiet (readAll fd).
Proof.
  intros w Hw. unfold readAll. destruct (fds w !! fd) as [f|]; cbn; [|auto].
  destruct (files w !! of_path f) as [[data|]|]; cbn; auto.
Qed.

(** A file opened, used by a body that keeps the descriptors as they
    are, and closed by a deferred [Close]. *)
Lemma quiet_open_defer_close {A} (p : string) (body : nat -> M A) :
  (forall fd, quiet (body fd)) ->
  quiet (let* f := os_Open p in defer (os_File_Close f) (body f)).
Proof.
  intros Hbody w Hw. unfold bind at 1. unfold os_Open, bind, emit, newFd. cbn.
  destruct (files w !! p) as [n|] eqn:Hp; cbn; [|auto].
  set (w1 := bumpId (setFds (<[nextid w := {| of_path := p; of_off := 0%nat |}]>
                               (fds w)) (log (EvOpen p) w))).
  assert (Hw1 : fdsFresh w1).
  { intros k Hk. cbn in *. rewrite lookup_insert_ne by lia. apply Hw. lia. }
  destruct (Hbody (nextid w) w1 Hw1) as (Hf & Hd & Hwf & Hfr).
  unfold defer.
  destruct (body (nextid w) w1) as [[f2 d2 g2 n2 wf2 t2] r].
  subst w1. cbn in Hf, Hd, Hwf, Hfr. subst f2 d2 wf2.
  assert (Hn : (nextid w < n2)%nat).
  { destruct (Nat.le_gt_cases n2 (nextid w)) as [Hle|Hgt]; [|exact Hgt].
    exfalso. specialize (Hfr (nextid w) Hle). cbn in Hfr.
    rewrite lookup_insert_eq in Hfr. discriminate. }
  unfold os_File_Close. cbn. rewrite lookup_insert_eq. cbn.
  rewrite delete_insert_eq, delete_id by (apply Hw; lia).
  repeat split; auto.
  intros k Hk. cbn in *. apply Hw. lia.
Qed.

Lemma quiet_NewEntityListWith (build : list string -> M (gmap string bool))
    (entities : list string) :
  (forall links, quiet (build links)) ->
  quiet (NewEntityListWith build entities).
Proof.
  intros Hb. apply quiet_bind; [apply Hb|intros; apply quiet_ret].
Qed.

Lemma quiet_LoadEntityListWith (build : list string -> M (gmap string bool))
    (filename : string) :
  (forall links, quiet (build links)) ->
  quiet (LoadEntityListWith build filename).
Proof.
  intros Hb. apply quiet_open_defer_close. intros fd.
  apply quiet_bind; [apply quiet_readAll|]. intros data.
  apply quiet_bind; [apply quiet_lift|]. intros elements.
  now apply quiet_NewEntityListWith.
Qed.

Lemma quiet_loadFiles (load : string -> M EntityList) (files : list string) :
  (forall file, quiet (load file)) ->
  forall acc, quiet (loadFiles load files acc).
Proof.
  intros Hl. induction files as [|file rest IH]; intros acc; cbn [loadFiles].
  - apply quiet_ret.
  - apply quiet_bind; [apply Hl|]. intros el. apply IH.
Qed.

Lemma quiet_buildEntryIndex (depth : nat) :
  forall links, quiet (buildEntryIndex depth links).
Proof.
  induction depth as [|depth IH]; intros links;
    rewrite buildEntryIndex_unfold.
  - apply quiet_bind; [apply quiet_lift|]. intros en.
    apply quiet_bind; [|intros; apply quiet_ret].
    apply quiet_loadFiles. intros file. apply quiet_fail.
  - apply quiet_bind; [apply quiet_lift|]. intros en.
    apply quiet_bind; [|intros; apply quiet_ret].
    apply quiet_loadFiles. intros file.
    now apply quiet_LoadEntityListWith.
Qed.

End QuietLists.

(** X20: building an entity list only reads: whatever the outcome, and
    however deep list files point to list files, [NewEntityList] and
    [LoadEntityList] leave the namespace as it is and close every list
    file they open. *)
Theorem entity_lists_release_files `{EntityExternals}
    (depth : nat) (entities : list string) (filename : string) :
  quiet (NewEntityList depth entities) /\
  quiet (LoadEntityList depth filename).
Proof.
  split.
  - apply quiet_NewEntityListWith, quiet_buildEntryIndex.
  - apply quiet_LoadEntityListWith, quiet_buildEntryIndex.
Qed.
